(** * PredictionUtils: a shallow embedding of [prediction_utils.py]

    The utility class of the prediction engine: the scalar distance
    functions, the row-reordering helpers, the nearest-neighbour average,
    the error metrics and the generator of feature combinations.

    Modelling conventions.
    - A cell of a dataframe is either the missing-value marker [NaN] or a
      number.  Numbers are exact rationals ([Q]): rounding, the infinite
      floats and the wrap-around of 64-bit integers are outside the model,
      and a result that depends on the size of a number carries a bound.
      Comparisons between numeric results are stated with [==] ([Qeq]).
    - A dataframe is a list of column names together with its rows in
      order; each row carries its integer index label and a finite map from
      column name to cell.  A cell that is absent from the map reads as
      [NaN].
    - A Python exception is a [Raise] result; [print] appends to an output
      log that the function returns next to its value.
    - The global NumPy random generator is explicit state. *)

From Stdlib Require Import ZArith QArith Qabs Qround Qminmax Lqa Lia.
From Stdlib Require Import Permutation Sorted Ascii.
From stdpp Require Import base option list gmap strings sorting.

Open Scope Z_scope.

(** ** Cells *)

Inductive value : Type :=
| NaN
| Num (q : Q).

(** [np.isnan] *)
Definition isnan (v : value) : bool :=
  match v with
  | NaN => true
  | Num _ => false
  end.

(** Equality of cells up to the representation of the rational. *)
Definition veq (a b : value) : Prop :=
  match a, b with
  | NaN, NaN => True
  | Num x, Num y => (x == y)%Q
  | _, _ => False
  end.

(** ** Distance engine *)

Module Distance.

(** [int(math.sqrt(x))] on an exact non-negative [x]: the integer part of
    the square root, which is the integer square root of the integer part
    of [x] (see [int_sqrt_spec]). *)
Definition int_sqrt (x : Q) : Z := Z.sqrt (Qfloor x).

(** [abs(d)**2] *)
Definition abs_squared (d : Q) : Q := (Qabs d * Qabs d)%Q.

(** The value returned for a missing operand: [2**5]. *)
Definition missing_distance : Z := 2 ^ 5.

(** [calc_euclidean_dist]:
    [if np.isnan(val1) or np.isnan(val2): return 2**5]
    [return int(math.sqrt(abs(val1 - val2)**2))]
    on exact numbers; the difference and its square are exact in the code
    too as long as they stay within the number type of the operands. *)
Definition calc_euclidean_dist (val1 val2 : value) : Z :=
  match val1, val2 with
  | Num a, Num b => int_sqrt (abs_squared (a - b))
  | _, _ => missing_distance
  end.

(** [scipy.spatial.distance.euclidean(u, v)] on two scalars: the norm of
    the one-dimensional difference. *)
Definition euclidean (u v : Q) : Q := Qabs (u - v).

(** [calc_euclidean_dist_using_scipy]:
    [if np.isnan(val1) or np.isnan(val2): return 2**5]
    [return distance.euclidean(val1, val2)] *)
Definition calc_euclidean_dist_using_scipy (val1 val2 : value) : Q :=
  match val1, val2 with
  | Num a, Num b => euclidean a b
  | _, _ => inject_Z missing_distance
  end.

(** The guard of both functions, as written:
    [np.isnan(val1) or np.isnan(val2)]. *)
Definition either_missing (val1 val2 : value) : bool :=
  isnan val1 || isnan val2.

(** [compare_observations]:
    [return obs2.apply(lambda x: self.calc_euclidean_dist_using_scipy(x, obs1))] *)
Definition compare_observations (obs1 : value) (obs2 : list value) : list Q :=
  (fun x => calc_euclidean_dist_using_scipy x obs1) <$> obs2.

End Distance.

(** ** Exceptions and printed output *)

Inductive exn : Type :=
| KeyError.

Inductive result (A : Type) : Type :=
| Ok (a : A)
| Raise (e : exn).
Arguments Ok {A} a.
Arguments Raise {A} e.

#[global] Instance result_ret : MRet result := fun A a => Ok a.
#[global] Instance result_bind : MBind result := fun A B f m =>
  match m with
  | Ok a => f a
  | Raise e => Raise e
  end.
#[global] Instance result_fmap : FMap result := fun A B f m =>
  match m with
  | Ok a => Ok (f a)
  | Raise e => Raise e
  end.

(** What a call writes to standard output. *)
Inductive output : Type :=
| Line (text : string)
| PredictedTarget (target_avg : value) (model_feature_name : string)
                  (feature_avg : value).

(** ** Dataframes *)

Record DataFrame : Type := mkDataFrame {
  columns : list string;
  rows : list (Z * gmap string value)
}.

(** The fields of [prediction_config] that the utilities read. *)
Record PredictionConfig : Type := mkPredictionConfig {
  TARGET_COLUMN : string;
  MIN_FEATURES_COMBO_LEN : Z
}.

Module Frame.

(** The cell of a row under a column name; absent cells are missing. *)
Definition cell (r : Z * gmap string value) (col : string) : value :=
  default NaN (r.2 !! col).

Definition labels (df : DataFrame) : list Z := (rows df).*1.

(** [df[col]]: the column as a series, or [KeyError]. *)
Definition getitem (df : DataFrame) (col : string) : result (list value) :=
  if decide (col ∈ columns df)
  then Ok ((fun r => cell r col) <$> rows df)
  else Raise KeyError.

(** [x[col]] on the row [x] handed to the function of [df.apply(.., axis=1)]. *)
Definition row_getitem (df : DataFrame) (r : Z * gmap string value)
    (col : string) : result value :=
  if decide (col ∈ columns df) then Ok (cell r col) else Raise KeyError.

(** [df.iloc[0:stop]]: positional slice, clamped to the number of rows. *)
Definition iloc_to (stop : nat) (df : DataFrame) : DataFrame :=
  mkDataFrame (columns df) (take stop (rows df)).

(** The rows carrying the index label [l], in frame order. *)
Definition rows_labelled (df : DataFrame) (l : Z) : list (Z * gmap string value) :=
  filter (fun r => r.1 = l) (rows df).

(** [df.loc[labels]] with a list of labels: the rows of each label in the
    order the labels are given; [KeyError] when a label is not in the index. *)
Definition loc (df : DataFrame) (ls : list Z) : result DataFrame :=
  if decide (Forall (fun l => l ∈ labels df) ls)
  then Ok (mkDataFrame (columns df) (ls ≫= rows_labelled df))
  else Raise KeyError.

(** The numbers of a series, missing values skipped. *)
Definition present (s : list value) : list Q :=
  omap (fun v => match v with Num q => Some q | NaN => None end) s.

Definition Qsum (l : list Q) : Q := foldr Qplus 0%Q l.

(** [Series.mean()]: missing values are skipped; the mean of no value is
    missing.  The mean is the exact one: computed in binary64 it can differ
    from it in the last bit. *)
Definition mean (s : list value) : value :=
  match present s with
  | [] => NaN
  | qs => Num (Qsum qs / inject_Z (Z.of_nat (length qs)))
  end.

(** The least and the greatest of the numbers of a series; none when the
    series has no number. *)
Definition series_min (qs : list Q) : option Q :=
  match qs with
  | [] => None
  | q :: qs' => Some (foldr Qmin q qs')
  end.

Definition series_max (qs : list Q) : option Q :=
  match qs with
  | [] => None
  | q :: qs' => Some (foldr Qmax q qs')
  end.

(** Arithmetic on cells; a missing operand gives a missing result. *)
Definition vsub (a b : value) : value :=
  match a, b with
  | Num x, Num y => Num (x - y)
  | _, _ => NaN
  end.

Definition vabs (a : value) : value :=
  match a with
  | Num x => Num (Qabs x)
  | NaN => NaN
  end.

(** The square, exact: an all-integer frame squares in 64 bits, where the
    square of an error beyond 2^31 is out of range (see [error_in_range]
    further down). *)
Definition vsquare (a : value) : value :=
  match a with
  | Num x => Num (x * x)
  | NaN => NaN
  end.

(** The result of [np.sqrt]: missing, or the non-negative real whose square
    is the given rational. *)
Inductive root : Type :=
| RootNaN
| RootOf (radicand : Q).

Definition np_sqrt (v : value) : root :=
  match v with
  | NaN => RootNaN
  | Num q => if Qle_bool 0 q then RootOf q else RootNaN
  end.

(** The number in the cell of a row, when there is one. *)
Definition number_of (feature : string) (r : Z * gmap string value)
    : option Q :=
  match cell r feature with
  | Num q => Some q
  | NaN => None
  end.

(** [l[idx]]: the elements of [l] at the positions [idx], in that order. *)
Definition select {A : Type} (l : list A) (idx : list nat) : list A :=
  omap (fun i => l !! i) idx.

End Frame.

(** ** Library operations the utilities call

    The NumPy generator and the default sort of pandas are used through
    their documented interface: what they return is constrained by the laws
    below and otherwise left open. *)

(** The process-wide generator behind [np.random.seed] and
    [np.random.permutation]. *)
Class NumpyRandom : Type := {
  rng_state : Type;
  (** [np.random.seed(s)]: the state after seeding *)
  np_random_seed : Z -> rng_state -> rng_state;
  (** [np.random.permutation(n)]: a shuffled [arange(n)] and the next state *)
  np_random_permutation : rng_state -> nat -> list nat * rng_state
}.

Class NumpyRandomLaws (R : NumpyRandom) : Prop := {
  (** seeding overwrites the state: what was there before is forgotten *)
  np_random_seed_resets :
    forall (s : Z) (g g' : rng_state), np_random_seed s g = np_random_seed s g';
  np_random_permutation_range :
    forall (g : rng_state) (n : nat), (np_random_permutation g n).1 ≡ₚ seq 0 n
}.

(** [argsort] of the non-missing keys of a column, as [sort_values] runs it
    with its default [kind='quicksort']. *)
Class ArgSort : Type := {
  argsort : list Q -> list nat
}.

Class ArgSortLaws (S : ArgSort) : Prop := {
  argsort_range : forall keys : list Q, argsort keys ≡ₚ seq 0 (length keys);
  argsort_ascending :
    forall keys : list Q, Sorted Qle (Frame.select keys (argsort keys))
}.

(** The outcome of a conversion by [float]: the number read, or
    [ValueError]. *)
Inductive conversion (A : Type) : Type :=
| Converted (a : A)
| ValueError.
Arguments Converted {A} a.
Arguments ValueError {A}.

#[global] Instance conversion_ret : MRet conversion := fun A a => Converted a.
#[global] Instance conversion_bind : MBind conversion := fun A B f m =>
  match m with
  | Converted a => f a
  | ValueError => ValueError
  end.

(** [float(text)]: what Python reads from a string. *)
Class PyFloat : Type := {
  float_of_string : string -> conversion value
}.

(** [round(num/den, 2)] as one operation on the exact quotient: the
    division in floating point followed by the rounding to two decimals. *)
Class PyRound : Type := {
  round_2 : Q -> Q
}.

Class PyRoundLaws (P : PyRound) : Prop := {
  round_2_zero : (round_2 0 == 0)%Q;
  round_2_one : (round_2 1 == 1)%Q;
  round_2_monotone : forall q q' : Q, (q <= q')%Q -> (round_2 q <= round_2 q')%Q
}.

(** ** The utilities *)

Module PredictionUtils.
Import Frame.

(** [randomise_dataframe_rows]:
    [np.random.seed(1)]
    [return df.loc[np.random.permutation(len(df))]]
    The first component is the returned frame (or the exception), the second
    the state the generator is left in. *)
Definition randomise_dataframe_rows `{NumpyRandom} (g : rng_state)
    (df : DataFrame) : result DataFrame * rng_state :=
  let g1 := np_random_seed 1 g in
  let '(shuffled, g2) := np_random_permutation g1 (length (rows df)) in
  (loc df (Z.of_nat <$> shuffled), g2).

(** [df.sort_values(feature)], ascending: the rows whose key is present are
    reordered by [argsort] of their keys, the rows whose key is missing
    follow in their frame order; [KeyError] when [feature] is not a column. *)
Definition sort_values `{ArgSort} (df : DataFrame) (feature : string)
    : result DataFrame :=
  if decide (feature ∈ columns df) then
    let mask := fun r => isnan (cell r feature) = true in
    let non_nans := filter (fun r => ~ mask r) (rows df) in
    let nans := filter mask (rows df) in
    let keys := present ((fun r => cell r feature) <$> non_nans) in
    Ok (mkDataFrame (columns df) (select non_nans (argsort keys) ++ nans))
  else Raise KeyError.

(** [sort_dataframe_by_feature]: [return df.sort_values(feature)] *)
Definition sort_dataframe_by_feature `{ArgSort} (df : DataFrame)
    (feature : string) : result DataFrame :=
  sort_values df feature.

(** [get_nearest_neighbors]: prints the two averages over [df.iloc[0:5]]
    and returns [df.iloc[0:5][TARGET_COLUMN].mean()]. *)
Definition get_nearest_neighbors (cfg : PredictionConfig) (df : DataFrame)
    (model_feature_name : string) : result (value * list output) :=
  target ← getitem (iloc_to 5 df) (TARGET_COLUMN cfg);
  feature ← getitem (iloc_to 5 df) model_feature_name;
  mret (mean target,
        [PredictedTarget (mean target) model_feature_name (mean feature)]).

(** ["predicted_" + TARGET_COLUMN + "_" + model_feature_name] *)
Definition column_name_predicted_target (cfg : PredictionConfig)
    (model_feature_name : string) : string :=
  "predicted_" +:+ TARGET_COLUMN cfg +:+ "_" +:+ model_feature_name.

(** [df.apply(f, axis=1)]: [f] on every row in order; the first exception
    ends the call.  On a frame without rows pandas calls [f] once on a row
    of missing values to learn the shape of the result: when [f] returns (the
    columns it reads exist) the result is the empty series, as here.  When
    that call fails the frame itself comes back and its mean is a series of
    missing values, one per column, which a single cell cannot hold: the
    results on frames without rows are stated for frames that have the
    columns the metrics read. *)
Definition apply_rows (df : DataFrame)
    (f : Z * gmap string value -> result value) : result (list value) :=
  mapM f (rows df).

(** [calc_mean_absolute_error] *)
Definition calc_mean_absolute_error (cfg : PredictionConfig) (df : DataFrame)
    (model_feature_name : string) : result value :=
  let predicted := column_name_predicted_target cfg model_feature_name in
  errors ← apply_rows df (fun x =>
    actual ← row_getitem df x (TARGET_COLUMN cfg);
    guess ← row_getitem df x predicted;
    mret (vabs (vsub actual guess)));
  mret (mean errors).

(** [calc_mean_squared_error] *)
Definition calc_mean_squared_error (cfg : PredictionConfig) (df : DataFrame)
    (model_feature_name : string) : result value :=
  let predicted := column_name_predicted_target cfg model_feature_name in
  errors ← apply_rows df (fun x =>
    actual ← row_getitem df x (TARGET_COLUMN cfg);
    guess ← row_getitem df x predicted;
    mret (vsquare (vsub actual guess)));
  mret (mean errors).

(** [calc_root_mean_squared_error]: [np.sqrt] of the mean squared error *)
Definition calc_root_mean_squared_error (cfg : PredictionConfig)
    (df : DataFrame) (model_feature_name : string) : result root :=
  mse ← calc_mean_squared_error cfg df model_feature_name;
  mret (np_sqrt mse).

(** [itertools.combinations(l, r)]: the [r]-element subsequences of [l], in
    lexicographic order of their positions. *)
Fixpoint combinations {A : Type} (l : list A) (r : nat) {struct l}
    : list (list A) :=
  match r, l with
  | O, _ => [[]]
  | S _, [] => []
  | S r', x :: xs => (cons x <$> combinations xs r') ++ combinations xs r
  end.

(** [flatten_combo]: [sum(combos, [])] *)
Definition flatten_combo {A : Type} (combos : list (list A)) : list A :=
  concat combos.

(** The loop [while i >= 1 and i <= loop_count: append; i += 1], run for at
    most [fuel] iterations. *)
Fixpoint combos_loop (fuel : nat) (features : list string) (loop_count i : Z)
    (combos_above_min_len : list (list (list string)))
    : list (list (list string)) :=
  match fuel with
  | O => combos_above_min_len
  | S fuel' =>
      if bool_decide (1 <= i) && bool_decide (i <= loop_count)
      then combos_loop fuel' features loop_count (i + 1)
             (combos_above_min_len ++ [combinations features (Z.to_nat i)])
      else combos_above_min_len
  end.

Definition min_length_error : string :=
  "Error: Miniumum length of any features combos cannot exceed length of all features".

(** [generate_combinations_of_features]: the combinations and what was
    printed.  The loop gets one iteration more than [loop_count], which it
    never uses up (see [combos_loop_enough]). *)
Definition generate_combinations_of_features (cfg : PredictionConfig)
    (training_column_names : list string)
    : list (list string) * list output :=
  let features := training_column_names in
  let loop_count := Z.of_nat (length features) in
  if bool_decide (MIN_FEATURES_COMBO_LEN cfg < loop_count) then
    (flatten_combo
       (combos_loop (S (length features)) features loop_count
          (MIN_FEATURES_COMBO_LEN cfg) []),
     [])
  else ([], [Line min_length_error]).

(** [x[TARGET_COLUMN] - x[column_name_predicted_target]], the difference
    both error metrics start from, on a row of a frame that has the two
    columns. *)
Definition row_error (cfg : PredictionConfig) (model_feature_name : string)
    (x : Z * gmap string value) : value :=
  vsub (cell x (TARGET_COLUMN cfg))
       (cell x (column_name_predicted_target cfg model_feature_name)).

(** [r] does not come after [r'] in ascending order of a column: when the
    key of [r'] is a number, so is the key of [r], and it is not greater. *)
Definition key_not_after (feature : string) (r r' : Z * gmap string value)
    : Prop :=
  forall q' : Q, cell r' feature = Num q' ->
    exists q : Q, cell r feature = Num q /\ (q <= q')%Q.

(** The error of a row, when there is one, is at most 2^31 in absolute
    value: its square then fits the 64-bit integers that an all-integer
    frame computes [(actual - predicted)**2] in, where larger errors wrap
    around. *)
Definition error_in_range (cfg : PredictionConfig) (model_feature_name : string)
    (x : Z * gmap string value) : bool :=
  match row_error cfg model_feature_name x with
  | Num e => Qle_bool (Qabs e) (inject_Z (2 ^ 31))
  | NaN => true
  end.

(** [series.isnull().sum()]: the number of missing values. *)
Definition isnull_sum (series : list value) : nat :=
  length (filter (fun v => isnan v = true) series).

(** [get_percentage_missing]:
    [num = series.isnull().sum()], [den = len(series)],
    [return round(num/den, 2)].
    On a series without values the quotient of the two NumPy integers is
    [nan], and so is its rounding. *)
Definition get_percentage_missing `{PyRound} (series : list value) : value :=
  let num := isnull_sum series in
  let den := length series in
  match den with
  | O => NaN
  | Datatypes.S _ =>
      Num (round_2 (inject_Z (Z.of_nat num) / inject_Z (Z.of_nat den)))
  end.

(** [text.replace(old, "")] for a pattern [old] of one character: every
    occurrence is deleted. *)
Fixpoint str_replace_char (old : Ascii.ascii) (text : string) : string :=
  match text with
  | EmptyString => EmptyString
  | String a rest =>
      if Ascii.eqb a old then str_replace_char old rest
      else String a (str_replace_char old rest)
  end.

(** [replace_bad_chars], the helper inside [clean_price], on a row that is
    text:
    [row = str(row).replace(",", "")]
    [row = str(row).replace("$", "")]
    [row = float(row)] *)
Definition replace_bad_chars `{PyFloat} (row : string) : conversion value :=
  let row1 := str_replace_char ","%char row in
  let row2 := str_replace_char "$"%char row1 in
  float_of_string row2.

(** [clean_price]:
    [return df_price_column.apply(lambda row: replace_bad_chars(row))]
    The first row that [float] refuses ends the call. *)
Definition clean_price `{PyFloat} (df_price_column : list string)
    : conversion (list value) :=
  mapM replace_bad_chars df_price_column.

End PredictionUtils.

(** ** Reference instances of the library operations

    Concrete operations that satisfy the laws, used to run the utilities on
    examples. *)

Module Reference.

(** A generator whose state is a counter: seeding sets the counter, a
    permutation rotates [arange(n)] by the counter and advances it. *)
Definition rotating : NumpyRandom := {|
  rng_state := nat;
  np_random_seed := fun s _ => Z.to_nat s;
  np_random_permutation := fun g n => (rotate g (seq 0 n), Datatypes.S g)
|}.

Definition key_le (a b : Q * nat) : Prop := Qle_bool a.1 b.1 = true.

#[global] Instance key_le_dec (a b : Q * nat) : Decision (key_le a b) :=
  decide (Qle_bool a.1 b.1 = true).

(** [argsort] by a merge sort of the keys paired with their positions. *)
Definition merge_argsort : ArgSort := {|
  argsort := fun keys =>
    (merge_sort key_le (zip keys (seq 0 (length keys)))).*2
|}.

(** Rounding to two decimals, halves upwards. *)
Definition half_up : PyRound := {|
  round_2 := fun q => (inject_Z (Qfloor (q * 100 + (1 # 2))) / 100)%Q
|}.

Fixpoint digits_value (acc : Z) (text : string) : option Z :=
  match text with
  | EmptyString => Some acc
  | String a rest =>
      let n := Z.of_nat (Ascii.nat_of_ascii a) in
      if bool_decide (48 <= n <= 57) then digits_value (10 * acc + (n - 48)) rest
      else None
  end.

(** A reader of non-empty strings of decimal digits; everything else is
    refused. *)
Definition digits_only : PyFloat := {|
  float_of_string := fun text =>
    match text with
    | EmptyString => ValueError
    | _ => match digits_value 0 text with
           | Some n => Converted (Num (inject_Z n))
           | None => ValueError
           end
    end
|}.

End Reference.

(** ** Example frames *)

Module Examples.

Definition config : PredictionConfig := mkPredictionConfig "mpg" 2.

Definition car (mpg weight : Q) : gmap string value :=
  {[ "mpg" := Num mpg; "weight" := Num weight ]}.

(** Four listings under the default index 0, 1, 2, 3. *)
Definition cars : DataFrame :=
  mkDataFrame ["mpg"; "weight"]
    [(0, car 18 3504); (1, car 15 3693); (2, car 24 2372); (3, car 27 2130)].

(** The listings left after the first two were dropped: the index keeps
    the labels 2 and 3. *)
Definition cars_tail : DataFrame :=
  mkDataFrame ["mpg"; "weight"] [(2, car 24 2372); (3, car 27 2130)].

(** Seven listings, one of them without a weight. *)
Definition fleet : DataFrame :=
  mkDataFrame ["mpg"; "weight"]
    [(0, car 18 3504); (1, car 15 3693); (2, {[ "mpg" := Num 21 ]});
     (3, car 24 2372); (4, car 27 2130); (5, car 14 4341); (6, car 30 1985)].

(** A frame with the target and a prediction column, and its empty slice. *)
Definition scored : DataFrame :=
  mkDataFrame ["mpg"; "predicted_mpg_weight"]
    [(0, {[ "mpg" := Num 18; "predicted_mpg_weight" := Num 20 ]});
     (1, {[ "mpg" := Num 15; "predicted_mpg_weight" := Num 14 ]})].

Definition scored_empty : DataFrame :=
  mkDataFrame ["mpg"; "predicted_mpg_weight"] [].


End Examples.

(** * Properties *)

(** ** Distance engine *)

Module DistanceFacts.
Import Distance.

Lemma floor_bounds (q : Q) :
  (inject_Z (Qfloor q) <= q /\ q < inject_Z (Qfloor q + 1))%Q.
Proof. split; [apply Qfloor_le | apply Qlt_floor]. Qed.

Lemma inject_Z_nonneg (z : Z) : 0 <= z -> (0 <= inject_Z z)%Q.
Proof. intros Hz. change 0%Q with (inject_Z 0). now rewrite <- Zle_Qle. Qed.

(** [int_sqrt] is the integer part of the real square root: its square is
    at most [x], the square of its successor is above [x]. *)
Lemma int_sqrt_spec (x : Q) :
  (0 <= x)%Q ->
  0 <= int_sqrt x /\
  (inject_Z (int_sqrt x * int_sqrt x) <= x
   /\ x < inject_Z ((int_sqrt x + 1) * (int_sqrt x + 1)))%Q.
Proof.
  intros Hx. unfold int_sqrt.
  destruct (floor_bounds x) as [Hlo Hhi].
  assert (Hf : 0 <= Qfloor x).
  { rewrite <- (Qfloor_Z 0). now apply Qfloor_resp_le. }
  pose proof (Z.sqrt_spec (Qfloor x) Hf) as [Hs1 Hs2]. cbv zeta in Hs1, Hs2.
  split; [apply Z.sqrt_nonneg |]. split.
  - eapply Qle_trans; [| exact Hlo]. now rewrite <- Zle_Qle.
  - eapply Qlt_le_trans; [exact Hhi |]. rewrite <- Zle_Qle.
    unfold Z.succ in Hs2. lia.
Qed.

Lemma int_sqrt_square (q : Q) : (0 <= q)%Q -> int_sqrt (q * q) = Qfloor q.
Proof.
  intros Hq. unfold int_sqrt.
  destruct (floor_bounds q) as [Hlo Hhi].
  destruct (floor_bounds (q * q)) as [Slo Shi].
  assert (Hn : 0 <= Qfloor q).
  { rewrite <- (Qfloor_Z 0). now apply Qfloor_resp_le. }
  pose proof (inject_Z_nonneg _ Hn) as Hn'.
  assert (Hn1 : (0 <= inject_Z (Qfloor q + 1))%Q) by (apply inject_Z_nonneg; lia).
  apply Z.sqrt_unique. split.
  - rewrite <- (Qfloor_Z (Qfloor q * Qfloor q)). apply Qfloor_resp_le.
    rewrite inject_Z_mult. nra.
  - rewrite Zlt_Qlt. eapply Qle_lt_trans; [exact Slo |].
    unfold Z.succ. rewrite inject_Z_mult. nra.
Qed.

(** On two numbers [calc_euclidean_dist] is the integer part of the
    absolute difference. *)
Lemma calc_euclidean_dist_floor (a b : Q) :
  calc_euclidean_dist (Num a) (Num b) = Qfloor (Qabs (a - b)).
Proof. cbn. apply int_sqrt_square, Qabs_nonneg. Qed.

(** The pattern match of the model is the guard of the source. *)
Lemma calc_euclidean_dist_guard (val1 val2 : value) :
  either_missing val1 val2 = true <->
  calc_euclidean_dist val1 val2 = missing_distance
  /\ calc_euclidean_dist_using_scipy val1 val2 = inject_Z missing_distance
  /\ (val1 = NaN \/ val2 = NaN).
Proof.
  destruct val1, val2; cbn; split; intros H; try tauto; try discriminate.
  destruct H as (_ & _ & [H | H]); discriminate.
Qed.

(** With a missing operand both variants return [2**5 = 32]. *)
Lemma missing_operand_distance (val1 val2 : value) :
  val1 = NaN \/ val2 = NaN ->
  calc_euclidean_dist val1 val2 = 32
  /\ calc_euclidean_dist_using_scipy val1 val2 = inject_Z 32.
Proof. intros [-> | ->]; [destruct val2 | destruct val1]; auto. Qed.

(** When the difference is a whole number the truncation loses nothing. *)
Lemma calc_euclidean_dist_integral (a b : Q) (z : Z) :
  (Qabs (a - b) == inject_Z z)%Q ->
  (inject_Z (calc_euclidean_dist (Num a) (Num b)) == Qabs (a - b))%Q.
Proof.
  intros Hz. rewrite calc_euclidean_dist_floor.
  rewrite (Qfloor_comp _ _ Hz), Qfloor_Z. now symmetry.
Qed.

(** The SciPy variant returns the absolute difference itself. *)
Lemma calc_euclidean_dist_using_scipy_abs (a b : Q) :
  calc_euclidean_dist_using_scipy (Num a) (Num b) = Qabs (a - b).
Proof. reflexivity. Qed.

(** [compare_observations] gives every value of the series its distance to
    the observation, position by position. *)
Lemma compare_observations_lookup (obs1 : value) (obs2 : list value) (i : nat) :
  compare_observations obs1 obs2 !! i
  = (fun x => calc_euclidean_dist_using_scipy x obs1) <$> obs2 !! i.
Proof. unfold compare_observations. apply list_lookup_fmap. Qed.

(** Both variants are never negative. *)
Lemma distances_nonneg (val1 val2 : value) :
  0 <= calc_euclidean_dist val1 val2
  /\ (0 <= calc_euclidean_dist_using_scipy val1 val2)%Q.
Proof.
  destruct val1 as [| a], val2 as [| b];
    try (split; [vm_compute; discriminate | vm_compute; discriminate]).
  split; [apply Z.sqrt_nonneg | apply Qabs_nonneg].
Qed.

(** C1: on the numbers 1.5 and 0 [calc_euclidean_dist] returns 1, which is
    not the absolute difference 1.5: the conversion to [int] drops the
    fraction. *)
Theorem calc_euclidean_dist_drops_fraction :
  calc_euclidean_dist (Num (3 # 2)) (Num 0) = 1
  /\ ~ (inject_Z (calc_euclidean_dist (Num (3 # 2)) (Num 0))
        == Qabs ((3 # 2) - 0))%Q.
Proof. split; [reflexivity | intros H; discriminate H]. Qed.

(** C3: a missing operand gives the fixed value 32, yet the numbers 100 and
    0 are at distance 100 in both variants: the value returned for missing
    operands is not above every distance between present ones. *)
Theorem missing_distance_not_maximal :
  (forall v : value, calc_euclidean_dist NaN v = 32
                     /\ calc_euclidean_dist v NaN = 32)
  /\ calc_euclidean_dist (Num 100) (Num 0) = 100
  /\ (calc_euclidean_dist_using_scipy (Num 100) (Num 0) == 100)%Q
  /\ ~ (calc_euclidean_dist (Num 100) (Num 0) < missing_distance).
Proof.
  split; [intros v; destruct v; split; reflexivity |].
  split; [reflexivity |]. split; [reflexivity |].
  vm_compute. intros H; discriminate H.
Qed.

(** C9: on the numbers 1.5 and 0 the two variants differ: 1 against 1.5. *)
Theorem distance_variants_differ :
  calc_euclidean_dist (Num (3 # 2)) (Num 0) = 1
  /\ (calc_euclidean_dist_using_scipy (Num (3 # 2)) (Num 0) == 3 # 2)%Q
  /\ ~ (inject_Z (calc_euclidean_dist (Num (3 # 2)) (Num 0))
        == calc_euclidean_dist_using_scipy (Num (3 # 2)) (Num 0))%Q.
Proof.
  split; [reflexivity |]. split; [reflexivity |]. intros H; discriminate H.
Qed.

End DistanceFacts.

(** ** Feature combination generator *)

Module CombinationFacts.
Import PredictionUtils.

(** [combinations l r] lists exactly the subsequences of [l] of length [r]. *)
Lemma elem_of_combinations {A : Type} (l : list A) (r : nat) (c : list A) :
  c ∈ combinations l r <-> c `sublist_of` l /\ length c = r.
Proof.
  revert r c. induction l as [| x xs IH]; intros r c.
  - destruct r; cbn.
    + rewrite list_elem_of_singleton, sublist_nil_r.
      split; [intros ->; auto | tauto].
    + rewrite elem_of_nil, sublist_nil_r. split; [tauto |].
      intros [-> Hlen]. discriminate Hlen.
  - destruct r; cbn.
    + rewrite list_elem_of_singleton. split.
      * intros ->. split; [apply sublist_nil_l | reflexivity].
      * intros [_ Hlen]. now apply nil_length_inv.
    + rewrite elem_of_app, list_elem_of_fmap, sublist_cons_r. split.
      * intros [(c' & -> & Hc') | Hc].
        -- apply IH in Hc' as [Hsub Hlen]. cbn. split; [right; eauto | lia].
        -- apply IH in Hc as [Hsub Hlen]. split; [left |]; assumption.
      * intros [[Hsub | (c' & -> & Hsub)] Hlen].
        -- right. apply IH. auto.
        -- left. exists c'. split; [reflexivity |]. apply IH.
           cbn in Hlen. split; [assumption | lia].
Qed.

(** Distinct features give distinct combinations. *)
Lemma NoDup_combinations {A : Type} (l : list A) (r : nat) :
  NoDup l -> NoDup (combinations l r).
Proof.
  revert r. induction l as [| x xs IH]; intros r Hnd.
  - destruct r; cbn; [apply NoDup_singleton | apply NoDup_nil_2].
  - apply NoDup_cons in Hnd as [Hx Hxs].
    destruct r; cbn; [apply NoDup_singleton |].
    apply NoDup_app. split; [| split].
    + apply NoDup_fmap_2; [intros ? ? ?; congruence | auto].
    + intros c Hin Hin'. apply list_elem_of_fmap in Hin as (c' & -> & _).
      apply elem_of_combinations in Hin' as [Hsub _].
      apply Hx. eapply sublist_subseteq; [exact Hsub |]. apply list_elem_of_here.
    + auto.
Qed.

(** The loop appends the combinations of the sizes [i, i+1, .., loop_count]
    as soon as it is given that many iterations. *)
Lemma combos_loop_closed (fuel : nat) (features : list string)
    (loop_count i : Z) (acc : list (list (list string))) :
  1 <= i ->
  (Z.to_nat (loop_count + 1 - i) <= fuel)%nat ->
  combos_loop fuel features loop_count i acc
  = acc ++ (combinations features
              <$> seq (Z.to_nat i) (Z.to_nat (loop_count + 1 - i))).
Proof.
  revert i acc. induction fuel as [| fuel IH]; intros i acc Hi Hfuel.
  - assert (Z.to_nat (loop_count + 1 - i) = 0%nat) as -> by lia.
    cbn. now rewrite app_nil_r.
  - cbn [combos_loop]. rewrite bool_decide_true by assumption. cbn [andb].
    case_bool_decide as Hle.
    + rewrite IH by lia. rewrite <- app_assoc. f_equal. cbn [app].
      replace (Z.to_nat (loop_count + 1 - i))
        with (S (Z.to_nat (loop_count + 1 - (i + 1)))) by lia.
      cbn [seq fmap list_fmap]. do 3 f_equal. lia.
    + assert (Z.to_nat (loop_count + 1 - i) = 0%nat) as -> by lia.
      cbn. now rewrite app_nil_r.
Qed.

(** More iterations than needed change nothing: the bound on the loop in
    [generate_combinations_of_features] is never what ends it. *)
Lemma combos_loop_enough (fuel fuel' : nat) (features : list string)
    (loop_count i : Z) (acc : list (list (list string))) :
  (Z.to_nat (loop_count + 1 - i) <= fuel)%nat ->
  (Z.to_nat (loop_count + 1 - i) <= fuel')%nat ->
  combos_loop fuel features loop_count i acc
  = combos_loop fuel' features loop_count i acc.
Proof.
  intros Hf Hf'. destruct (decide (1 <= i)) as [Hi | Hi].
  - now rewrite !combos_loop_closed.
  - destruct fuel, fuel'; cbn; rewrite ?bool_decide_false by assumption;
      reflexivity.
Qed.

(** For a minimum length from 1 to one below the number of features the
    generator returns the combinations of every size from the minimum to
    the number of features, smaller sizes first, and prints nothing. *)
Lemma generate_combinations_below_count (cfg : PredictionConfig)
    (features : list string) :
  1 <= MIN_FEATURES_COMBO_LEN cfg < Z.of_nat (length features) ->
  generate_combinations_of_features cfg features
  = (concat (combinations features
               <$> seq (Z.to_nat (MIN_FEATURES_COMBO_LEN cfg))
                       (length features + 1
                        - Z.to_nat (MIN_FEATURES_COMBO_LEN cfg))),
     []).
Proof.
  intros [Hlo Hhi]. unfold generate_combinations_of_features, flatten_combo.
  rewrite bool_decide_true by assumption.
  rewrite combos_loop_closed by lia. cbn [app]. do 4 f_equal. lia.
Qed.

(** A minimum length below 1 gives no combination and no message. *)
Lemma generate_combinations_nonpositive (cfg : PredictionConfig)
    (features : list string) :
  MIN_FEATURES_COMBO_LEN cfg < 1 ->
  MIN_FEATURES_COMBO_LEN cfg < Z.of_nat (length features) ->
  generate_combinations_of_features cfg features = ([], []).
Proof.
  intros Hlo Hhi. unfold generate_combinations_of_features.
  rewrite bool_decide_true by assumption. cbn [combos_loop].
  rewrite bool_decide_false by lia. reflexivity.
Qed.

(** The example of the specification: three features, minimum length 2. *)
Example generate_combinations_ABC :
  generate_combinations_of_features (mkPredictionConfig "mpg" 2) ["A"; "B"; "C"]
  = ([["A"; "B"]; ["A"; "C"]; ["B"; "C"]; ["A"; "B"; "C"]], []).
Proof. reflexivity. Qed.

(** C2: with two features and minimum length 2 the generator prints the
    error and returns no combination, although the two features form one
    combination of size 2: the guard [<] turns the minimum length that
    equals the number of features away. *)
Theorem generate_combinations_min_equals_count :
  generate_combinations_of_features (mkPredictionConfig "mpg" 2) ["A"; "B"]
  = ([], [Line min_length_error])
  /\ combinations ["A"; "B"] 2 = [["A"; "B"]].
Proof. split; reflexivity. Qed.

(** C8: when the minimum length exceeds the number of training columns the
    generator returns the empty sequence and prints the error line; it has
    no other outcome, in particular no exception. *)
Theorem generate_combinations_min_exceeds_count (cfg : PredictionConfig)
    (training_column_names : list string) :
  Z.of_nat (length training_column_names) < MIN_FEATURES_COMBO_LEN cfg ->
  generate_combinations_of_features cfg training_column_names
  = ([], [Line min_length_error]).
Proof.
  intros Hlt. unfold generate_combinations_of_features.
  rewrite bool_decide_false by lia. reflexivity.
Qed.

(** Two training columns against a minimum length of 3. *)
Lemma generate_combinations_min_exceeds_count_witness :
  Z.of_nat (length ["col1"; "col2"]) < 3
  /\ generate_combinations_of_features (mkPredictionConfig "col4" 3)
       ["col1"; "col2"]
     = ([], [Line min_length_error]).
Proof.
  split; [reflexivity |].
  apply (generate_combinations_min_exceeds_count
           (mkPredictionConfig "col4" 3) ["col1"; "col2"]).
  reflexivity.
Defined.

End CombinationFacts.

(** ** Dataframes: selection and lookup by label *)

Module FrameFacts.
Import Frame PredictionUtils.

Lemma select_from {A : Type} (pre l : list A) :
  select (pre ++ l) (seq (length pre) (length l)) = l.
Proof.
  revert pre. induction l as [| x l IH]; intros pre; [reflexivity |].
  cbn [length seq]. unfold select. cbn [omap list_omap].
  rewrite lookup_app_r, Nat.sub_diag by lia. cbn. f_equal.
  specialize (IH (pre ++ [x])). rewrite length_app, <- app_assoc in IH.
  cbn in IH. rewrite Nat.add_1_r in IH. exact IH.
Qed.

Lemma select_seq {A : Type} (l : list A) : select l (seq 0 (length l)) = l.
Proof. apply (select_from [] l). Qed.

(** Selecting by a rearrangement of all positions rearranges the list. *)
Lemma select_Permutation {A : Type} (l : list A) (idx : list nat) :
  idx ≡ₚ seq 0 (length l) -> select l idx ≡ₚ l.
Proof.
  intros Hidx. unfold select. rewrite Hidx. fold (select l (seq 0 (length l))).
  now rewrite select_seq.
Qed.

Lemma filter_label_absent (l : list (Z * gmap string value)) (k : Z) :
  k ∉ l.*1 -> filter (fun r => r.1 = k) l = [].
Proof.
  intros Hk. induction l as [| x l IH]; [reflexivity |].
  cbn in Hk. apply not_elem_of_cons in Hk as [Hne Hk].
  rewrite filter_cons_False by congruence. auto.
Qed.

Lemma filter_label_unique (l : list (Z * gmap string value))
    (r : Z * gmap string value) :
  NoDup l.*1 -> r ∈ l -> filter (fun r' => r'.1 = r.1) l = [r].
Proof.
  induction l as [| x l IH]; intros Hnd Hin; [now apply elem_of_nil in Hin |].
  cbn in Hnd. apply NoDup_cons in Hnd as [Hx Hnd].
  apply elem_of_cons in Hin as [-> | Hin].
  - rewrite filter_cons_True by reflexivity.
    now rewrite filter_label_absent.
  - rewrite filter_cons_False; [auto |].
    intros Heq. apply Hx. rewrite Heq. now apply list_elem_of_fmap_2.
Qed.

Lemma bind_rows_labelled (df : DataFrame) :
  NoDup (labels df) -> labels df ≫= rows_labelled df = rows df.
Proof.
  intros Hnd. unfold labels.
  assert (Hsub : forall l, l ⊆ rows df -> l.*1 ≫= rows_labelled df = l).
  { induction l as [| x l IH]; intros Hl; [reflexivity |].
    cbn. unfold rows_labelled at 1.
    rewrite filter_label_unique by (auto; apply Hl, list_elem_of_here).
    cbn. f_equal. apply IH. intros y Hy. apply Hl. now apply list_elem_of_further. }
  now apply Hsub.
Qed.

Lemma loc_Ok_iff (df : DataFrame) (ls : list Z) :
  (exists df', loc df ls = Ok df') <-> Forall (fun l => l ∈ labels df) ls.
Proof.
  unfold loc. case_decide; split; intros H'; eauto; try tauto.
  destruct H' as [? H']. discriminate H'.
Qed.

Lemma loc_rearranged_index (df : DataFrame) (ls : list Z) :
  NoDup (labels df) -> ls ≡ₚ labels df ->
  exists df', loc df ls = Ok df'
              /\ columns df' = columns df /\ rows df' ≡ₚ rows df.
Proof.
  intros Hnd Hls. unfold loc. rewrite decide_True.
  - eexists. split; [reflexivity |]. split; [reflexivity |]. cbn.
    rewrite Hls. now rewrite bind_rows_labelled.
  - apply Forall_forall. intros l Hl. now rewrite <- Hls.
Qed.

End FrameFacts.

(** ** The reference instances satisfy the laws *)

Module ReferenceFacts.
Import Frame Reference.

Lemma rotate_Permutation {A : Type} (n : nat) (l : list A) : rotate n l ≡ₚ l.
Proof. unfold rotate. rewrite (comm (++)). now rewrite take_drop. Qed.

Lemma rotating_laws : NumpyRandomLaws rotating.
Proof.
  constructor.
  - intros s g g'. reflexivity.
  - intros g n. cbn. apply rotate_Permutation.
Qed.

#[local] Instance key_le_total : Total key_le.
Proof.
  intros a b. unfold key_le. rewrite !Qle_bool_iff.
  destruct (Qlt_le_dec a.1 b.1) as [Hlt | Hle]; [left | right]; auto.
  now apply Qlt_le_weak.
Qed.

Lemma zip_seq_lookup (keys : list Q) (j : nat) (p : Q * nat) :
  p ∈ zip keys (seq j (length keys)) -> keys !! (p.2 - j)%nat = Some p.1 /\ (j <= p.2)%nat.
Proof.
  revert j. induction keys as [| k keys IH]; intros j Hin; cbn in Hin.
  - now apply elem_of_nil in Hin.
  - apply elem_of_cons in Hin as [-> | Hin].
    + cbn. rewrite Nat.sub_diag. auto.
    + apply IH in Hin as [Hl Hj]. split; [| lia].
      replace (p.2 - j)%nat with (S (p.2 - S j)) by lia. exact Hl.
Qed.

Lemma select_zipped (keys : list Q) (l : list (Q * nat)) :
  Forall (fun p => keys !! p.2 = Some p.1) l -> select keys l.*2 = l.*1.
Proof.
  induction 1 as [| p l Hp _ IH]; [reflexivity |].
  unfold select in *. cbn. rewrite Hp. cbn. now f_equal.
Qed.

Lemma merge_argsort_laws : ArgSortLaws merge_argsort.
Proof.
  constructor; intros keys; unfold argsort, merge_argsort.
  - rewrite merge_sort_Permutation. rewrite snd_zip; [reflexivity |].
    now rewrite length_seq.
  - rewrite select_zipped.
    + apply (Sorted_fmap fst key_le Qle); [| apply Sorted_merge_sort, _].
      intros x y. apply Qle_bool_imp_le.
    + apply Forall_forall. intros p Hp. rewrite merge_sort_Permutation in Hp.
      apply zip_seq_lookup in Hp as [Hl _]. now rewrite Nat.sub_0_r in Hl.
Qed.

End ReferenceFacts.

(** ** Row reordering *)

Module ReorderFacts.
Import Frame PredictionUtils FrameFacts.

Section Randomise.
Context {R : NumpyRandom} {RL : NumpyRandomLaws R}.

(** C7: the generator is seeded with 1 at every call, so neither the
    returned frame (or exception) nor the state the generator is left in
    depends on the state the call started from: two invocations on the same
    frame, in one run or in two, return the same row order. *)
Theorem randomise_dataframe_rows_deterministic (g g' : rng_state)
    (df : DataFrame) :
  randomise_dataframe_rows g df = randomise_dataframe_rows g' df.
Proof.
  unfold randomise_dataframe_rows.
  now rewrite (np_random_seed_resets 1 g g').
Qed.

(** The labels looked up are the positions [0 .. len(df)-1]. *)
Lemma randomise_dataframe_rows_loc (g : rng_state) (df : DataFrame) :
  exists ls, (randomise_dataframe_rows g df).1 = loc df ls
             /\ ls ≡ₚ Z.of_nat <$> seq 0 (length (rows df)).
Proof.
  unfold randomise_dataframe_rows.
  pose proof (np_random_permutation_range (np_random_seed 1 g)
                (length (rows df))) as Hp.
  destruct (np_random_permutation _ _) as [shuffled g2]. cbn in *.
  eexists. split; [reflexivity |]. now rewrite Hp.
Qed.

Lemma randomise_positional_index (g : rng_state) (df : DataFrame) :
  labels df ≡ₚ Z.of_nat <$> seq 0 (length (rows df)) ->
  exists df', (randomise_dataframe_rows g df).1 = Ok df'
              /\ columns df' = columns df /\ rows df' ≡ₚ rows df.
Proof.
  intros Hidx. destruct (randomise_dataframe_rows_loc g df) as (ls & -> & Hls).
  apply loc_rearranged_index.
  - rewrite Hidx. apply NoDup_fmap; [apply _ | apply NoDup_seq].
  - now rewrite Hls, Hidx.
Qed.

(** A frame whose labels are not positions: the lookup by label fails. *)
Lemma randomise_missing_label (g : rng_state) (df : DataFrame) :
  (exists i, (i < length (rows df))%nat /\ Z.of_nat i ∉ labels df) ->
  (randomise_dataframe_rows g df).1 = Raise KeyError.
Proof.
  intros (i & Hi & Hnot).
  destruct (randomise_dataframe_rows_loc g df) as (ls & -> & Hls).
  unfold loc. rewrite decide_False; [reflexivity |].
  intros Hall. apply Hnot. rewrite Forall_forall in Hall. apply Hall.
  rewrite Hls. apply list_elem_of_fmap_2. apply elem_of_seq. lia.
Qed.

End Randomise.

(** The example listings shuffled from two different generator states. *)
Lemma randomise_dataframe_rows_deterministic_witness :
  randomise_dataframe_rows (H := Reference.rotating) 0%nat Examples.cars
  = randomise_dataframe_rows (H := Reference.rotating) 7%nat Examples.cars.
Proof.
  apply (@randomise_dataframe_rows_deterministic
           Reference.rotating ReferenceFacts.rotating_laws).
Defined.

Section Sort.
Context {S : ArgSort} {SL : ArgSortLaws S}.

Lemma present_length_numeric (feature : string)
    (l : list (Z * gmap string value)) :
  Forall (fun r => ~ isnan (cell r feature) = true) l ->
  length (present ((fun r => cell r feature) <$> l)) = length l.
Proof.
  induction 1 as [| r l Hr _ IH]; [reflexivity |].
  cbn. destruct (cell r feature); [exfalso; now apply Hr |]. cbn. now f_equal.
Qed.

Lemma sort_dataframe_by_feature_permutes (df : DataFrame) (feature : string) :
  feature ∈ columns df ->
  exists df', sort_dataframe_by_feature df feature = Ok df'
              /\ columns df' = columns df /\ rows df' ≡ₚ rows df.
Proof.
  intros Hcol. unfold sort_dataframe_by_feature, sort_values.
  rewrite decide_True by assumption.
  eexists. split; [reflexivity |]. split; [reflexivity |]. cbn.
  rewrite select_Permutation.
  - rewrite (comm (++)). apply filter_app_complement.
  - rewrite argsort_range. rewrite present_length_numeric; [reflexivity |].
    apply Forall_forall. intros r Hr. now apply list_elem_of_filter in Hr as [Hr _].
Qed.

Lemma sort_dataframe_by_feature_unknown (df : DataFrame) (feature : string) :
  feature ∉ columns df -> sort_dataframe_by_feature df feature = Raise KeyError.
Proof.
  intros Hcol. unfold sort_dataframe_by_feature, sort_values.
  now rewrite decide_False.
Qed.

End Sort.
End ReorderFacts.

(** ** Order of the sorted frame *)

Module SortFacts.
Import Frame PredictionUtils FrameFacts ReorderFacts.

Lemma present_keys (feature : string) (l : list (Z * gmap string value)) :
  present ((fun r => cell r feature) <$> l) = omap (number_of feature) l.
Proof.
  unfold present. induction l as [| r l IH]; [reflexivity |].
  cbn. unfold number_of at 1.
  destruct (cell r feature); cbn; now rewrite IH.
Qed.

Lemma number_of_numeric (feature : string) (r : Z * gmap string value) :
  ~ isnan (cell r feature) = true ->
  exists q, cell r feature = Num q /\ number_of feature r = Some q.
Proof.
  intros Hr. unfold number_of.
  destruct (cell r feature) as [| q]; [exfalso; now apply Hr | eauto].
Qed.

Lemma lookup_numeric_keys (feature : string)
    (l : list (Z * gmap string value)) (i : nat) :
  Forall (fun r => ~ isnan (cell r feature) = true) l ->
  omap (number_of feature) l !! i = l !! i ≫= number_of feature.
Proof.
  intros Hl. revert i. induction Hl as [| r l Hr _ IH]; intros i; [reflexivity |].
  cbn [omap list_omap].
  destruct (number_of_numeric feature r Hr) as (q & _ & Hq). rewrite Hq.
  destruct i; cbn; [now rewrite Hq | apply IH].
Qed.

Lemma present_select (feature : string) (l : list (Z * gmap string value))
    (idx : list nat) :
  Forall (fun r => ~ isnan (cell r feature) = true) l ->
  present ((fun r => cell r feature) <$> select l idx)
  = select (present ((fun r => cell r feature) <$> l)) idx.
Proof.
  intros Hl. rewrite !present_keys. unfold select.
  induction idx as [| i idx IH]; [reflexivity |].
  cbn [omap list_omap]. rewrite lookup_numeric_keys by assumption.
  destruct (l !! i) as [r |] eqn:Hi; cbn; [| exact IH].
  pose proof (proj1 (Forall_forall _ _) Hl r (list_elem_of_lookup_2 _ _ _ Hi)) as Hr.
  destruct (number_of_numeric feature r Hr) as (q & _ & Hq). rewrite Hq.
  cbn. now f_equal.
Qed.

Lemma elem_of_select {A : Type} (l : list A) (idx : list nat) (x : A) :
  x ∈ select l idx -> x ∈ l.
Proof.
  unfold select. rewrite list_elem_of_omap. intros (i & _ & Hi).
  eapply list_elem_of_lookup_2, Hi.
Qed.

Section Ascending.
Context {S : ArgSort} {SL : ArgSortLaws S}.

(** The frame returned by [sort_dataframe_by_feature] starts with the rows
    whose key is present, in ascending key order, and ends with the rows
    whose key is missing, in the order they had. *)
Lemma sort_dataframe_by_feature_ascending (df : DataFrame) (feature : string) :
  feature ∈ columns df ->
  exists ordered missing,
    sort_dataframe_by_feature df feature
    = Ok (mkDataFrame (columns df) (ordered ++ missing))
    /\ Sorted Qle (present ((fun r => cell r feature) <$> ordered))
    /\ Forall (fun r => isnan (cell r feature) = false) ordered
    /\ missing = filter (fun r => isnan (cell r feature) = true) (rows df).
Proof.
  intros Hcol. unfold sort_dataframe_by_feature, sort_values.
  rewrite decide_True by assumption.
  set (non_nans := filter _ (rows df)).
  assert (Hnum : Forall (fun r => ~ isnan (cell r feature) = true) non_nans).
  { apply Forall_forall. intros r Hr.
    now apply list_elem_of_filter in Hr as [Hr _]. }
  eexists _, _. split; [reflexivity |]. split; [| split; [| reflexivity]].
  - rewrite present_select by assumption. apply argsort_ascending.
  - apply Forall_forall. intros r Hr. apply elem_of_select in Hr.
    rewrite Forall_forall in Hnum. specialize (Hnum r Hr).
    now destruct (isnan (cell r feature)).
Qed.

End Ascending.
End SortFacts.

(** ** Means *)

Module MeanFacts.
Import Frame.

Lemma inject_length_cons (q : Q) (qs : list Q) :
  (inject_Z (Z.of_nat (length (q :: qs)))
   == inject_Z (Z.of_nat (length qs)) + 1)%Q.
Proof. cbn [length]. now rewrite Nat2Z.inj_succ, <- Z.add_1_r, inject_Z_plus. Qed.

Lemma Qsum_bounds (lo hi : Q) (qs : list Q) :
  Forall (fun q => lo <= q /\ q <= hi)%Q qs ->
  (inject_Z (Z.of_nat (length qs)) * lo <= Qsum qs
   /\ Qsum qs <= inject_Z (Z.of_nat (length qs)) * hi)%Q.
Proof.
  induction 1 as [| q qs [Hlo Hhi] _ [IHlo IHhi]].
  - cbn. change (inject_Z (Z.of_nat 0)) with 0%Q. lra.
  - rewrite inject_length_cons. cbn [Qsum foldr]. fold (Qsum qs). lra.
Qed.

Lemma Qmean_bounds (lo hi : Q) (qs : list Q) :
  qs <> [] ->
  Forall (fun q => lo <= q /\ q <= hi)%Q qs ->
  (lo <= Qsum qs / inject_Z (Z.of_nat (length qs))
   /\ Qsum qs / inject_Z (Z.of_nat (length qs)) <= hi)%Q.
Proof.
  intros Hne Hall. destruct (Qsum_bounds lo hi qs Hall) as [Hlo Hhi].
  assert (Hpos : (0 < inject_Z (Z.of_nat (length qs)))%Q).
  { change 0%Q with (inject_Z 0). rewrite <- Zlt_Qlt.
    destruct qs; [congruence | cbn [length]; lia]. }
  split.
  - apply Qle_shift_div_l; [assumption | lra].
  - apply Qle_shift_div_r; [assumption | lra].
Qed.

Lemma foldr_Qmin_le (q : Q) (qs : list Q) :
  (foldr Qmin q qs <= q)%Q /\ Forall (fun x => foldr Qmin q qs <= x)%Q qs.
Proof.
  induction qs as [| x qs [IHq IHall]]; cbn.
  - split; [apply Qle_refl | constructor].
  - split.
    + eapply Qle_trans; [apply Q.le_min_r | exact IHq].
    + constructor; [apply Q.le_min_l |].
      eapply Forall_impl; [exact IHall |]. cbn. intros y Hy.
      eapply Qle_trans; [apply Q.le_min_r | exact Hy].
Qed.

Lemma foldr_Qmax_ge (q : Q) (qs : list Q) :
  (q <= foldr Qmax q qs)%Q /\ Forall (fun x => x <= foldr Qmax q qs)%Q qs.
Proof.
  induction qs as [| x qs [IHq IHall]]; cbn.
  - split; [apply Qle_refl | constructor].
  - split.
    + eapply Qle_trans; [exact IHq | apply Q.le_max_r].
    + constructor; [apply Q.le_max_l |].
      eapply Forall_impl; [exact IHall |]. cbn. intros y Hy.
      eapply Qle_trans; [exact Hy | apply Q.le_max_r].
Qed.

(** The mean of a series with at least one number is a number between the
    least and the greatest of its numbers. *)
Lemma mean_between_min_max (s : list value) :
  present s <> [] ->
  exists m lo hi,
    mean s = Num m
    /\ series_min (present s) = Some lo /\ series_max (present s) = Some hi
    /\ (lo <= m /\ m <= hi)%Q.
Proof.
  intros Hne. unfold mean.
  destruct (present s) as [| q qs] eqn:Hp; [congruence |].
  eexists _, _, _. split; [reflexivity |]. split; [reflexivity |].
  split; [reflexivity |].
  destruct (foldr_Qmin_le q qs) as [Hq Hqs].
  destruct (foldr_Qmax_ge q qs) as [Hq' Hqs'].
  apply Qmean_bounds; [discriminate |].
  constructor; [split; assumption |].
  rewrite Forall_forall in Hqs, Hqs' |- *. intros x Hx. split; auto.
Qed.

Lemma mean_missing (s : list value) : present s = [] -> mean s = NaN.
Proof. intros Hp. unfold mean. now rewrite Hp. Qed.

End MeanFacts.

(** ** Nearest-neighbour average and error metrics *)

Module NeighborFacts.
Import Frame PredictionUtils MeanFacts Examples.

Lemma get_nearest_neighbors_columns (cfg : PredictionConfig) (df : DataFrame)
    (model_feature_name : string) :
  TARGET_COLUMN cfg ∈ columns df -> model_feature_name ∈ columns df ->
  exists out,
    get_nearest_neighbors cfg df model_feature_name
    = Ok (mean ((fun r => cell r (TARGET_COLUMN cfg)) <$> take 5 (rows df)),
          out).
Proof.
  intros Ht Hf. unfold get_nearest_neighbors, getitem. cbn [columns iloc_to].
  rewrite !decide_True by assumption. cbn. eauto.
Qed.

(** A missing column ends the call with [KeyError]. *)
Lemma get_nearest_neighbors_unknown_column (cfg : PredictionConfig)
    (df : DataFrame) (model_feature_name : string) :
  TARGET_COLUMN cfg ∉ columns df \/ model_feature_name ∉ columns df ->
  get_nearest_neighbors cfg df model_feature_name = Raise KeyError.
Proof.
  intros Hcol. unfold get_nearest_neighbors, getitem. cbn [columns iloc_to].
  destruct (decide (TARGET_COLUMN cfg ∈ columns df)); [| reflexivity].
  destruct Hcol as [Hcol | Hcol]; [contradiction |].
  now rewrite decide_False.
Qed.

(** C5, as the code has it: the number of neighbours is the constant 5.
    [get_nearest_neighbors] returns the mean of the target values of the
    first five rows (of all rows when the frame has at most five); when one
    of these targets is present the mean is a number and, the numbers taken
    as exact, lies between the least and the greatest of them (the mean
    computed in binary64 can miss the interval by the last bit, as five
    times 12.81 does). *)
Theorem get_nearest_neighbors_first_five (cfg : PredictionConfig)
    (df : DataFrame) (model_feature_name : string) :
  TARGET_COLUMN cfg ∈ columns df -> model_feature_name ∈ columns df ->
  let target := fun r => cell r (TARGET_COLUMN cfg) in
  (exists out,
     get_nearest_neighbors cfg df model_feature_name
     = Ok (mean (target <$> take 5 (rows df)), out))
  /\ (present (target <$> take 5 (rows df)) <> [] ->
      exists m lo hi,
        mean (target <$> take 5 (rows df)) = Num m
        /\ series_min (present (target <$> take 5 (rows df))) = Some lo
        /\ series_max (present (target <$> take 5 (rows df))) = Some hi
        /\ (lo <= m /\ m <= hi)%Q)
  /\ ((length (rows df) <= 5)%nat -> take 5 (rows df) = rows df).
Proof.
  intros Ht Hf target. split; [| split].
  - now apply get_nearest_neighbors_columns.
  - apply mean_between_min_max.
  - apply take_ge.
Qed.

(** The four example listings, predicted from the feature "weight". *)
Lemma get_nearest_neighbors_first_five_witness :
  (exists out,
     get_nearest_neighbors config cars "weight"
     = Ok (mean ((fun r => cell r "mpg") <$> take 5 (rows cars)), out))
  /\ (present ((fun r => cell r "mpg") <$> take 5 (rows cars)) <> [] ->
      exists m lo hi,
        mean ((fun r => cell r "mpg") <$> take 5 (rows cars)) = Num m
        /\ series_min (present ((fun r => cell r "mpg") <$> take 5 (rows cars)))
           = Some lo
        /\ series_max (present ((fun r => cell r "mpg") <$> take 5 (rows cars)))
           = Some hi
        /\ (lo <= m /\ m <= hi)%Q)
  /\ ((length (rows cars) <= 5)%nat -> take 5 (rows cars) = rows cars).
Proof.
  apply (get_nearest_neighbors_first_five config cars "weight").
  - apply list_elem_of_here.
  - apply list_elem_of_further, list_elem_of_here.
Defined.

(** C5, as stated, fails: with k = 1 on the four example listings the
    claim asks for the target of the first row, 18, and the code returns
    the mean 21 of all four. *)
Lemma get_nearest_neighbors_ignores_k :
  ~ (forall (k : nat) (cfg : PredictionConfig) (df : DataFrame)
            (model_feature_name : string),
        (1 <= k)%nat -> (k <= length (rows df))%nat ->
        exists v out,
          get_nearest_neighbors cfg df model_feature_name = Ok (v, out)
          /\ veq v (mean ((fun r => cell r (TARGET_COLUMN cfg))
                            <$> take k (rows df)))).
Proof.
  intros Hclaim.
  destruct (Hclaim 1%nat config cars "weight") as (v & out & Hres & Hv).
  - lia.
  - cbn. lia.
  - vm_compute in Hres. injection Hres as <- _.
    vm_compute in Hv. discriminate Hv.
Qed.

End NeighborFacts.

Module MetricFacts.
Import Frame PredictionUtils Examples.

Lemma mapM_rows_Ok {A B : Type} (f : A -> result B) (g : A -> B) (l : list A) :
  (forall x, x ∈ l -> f x = Ok (g x)) -> mapM f l = Ok (g <$> l).
Proof.
  induction l as [| x l IH]; intros Hf; [reflexivity |].
  cbn. rewrite Hf by apply list_elem_of_here. cbn.
  rewrite IH; [reflexivity |]. intros y Hy. apply Hf. now apply list_elem_of_further.
Qed.

(** With both columns in the frame the mean absolute error is the mean of
    the absolute differences of the rows. *)
Lemma calc_mean_absolute_error_value (cfg : PredictionConfig) (df : DataFrame)
    (name : string) :
  TARGET_COLUMN cfg ∈ columns df ->
  column_name_predicted_target cfg name ∈ columns df ->
  calc_mean_absolute_error cfg df name
  = Ok (mean ((fun x => vabs (vsub (cell x (TARGET_COLUMN cfg))
                                   (cell x (column_name_predicted_target cfg name))))
              <$> rows df)).
Proof.
  intros Ht Hp. unfold calc_mean_absolute_error, apply_rows.
  erewrite mapM_rows_Ok; [reflexivity |].
  intros x _. unfold row_getitem. now rewrite !decide_True by assumption.
Qed.

Lemma calc_mean_squared_error_value (cfg : PredictionConfig) (df : DataFrame)
    (name : string) :
  TARGET_COLUMN cfg ∈ columns df ->
  column_name_predicted_target cfg name ∈ columns df ->
  calc_mean_squared_error cfg df name
  = Ok (mean ((fun x => vsquare (vsub (cell x (TARGET_COLUMN cfg))
                                      (cell x (column_name_predicted_target cfg name))))
              <$> rows df)).
Proof.
  intros Ht Hp. unfold calc_mean_squared_error, apply_rows.
  erewrite mapM_rows_Ok; [reflexivity |].
  intros x _. unfold row_getitem. now rewrite !decide_True by assumption.
Qed.

(** On a frame with rows a column that is not there raises [KeyError]. *)
Lemma calc_mean_absolute_error_unknown_target (cfg : PredictionConfig)
    (df : DataFrame) (name : string) :
  rows df <> [] -> TARGET_COLUMN cfg ∉ columns df ->
  calc_mean_absolute_error cfg df name = Raise KeyError.
Proof.
  intros Hrows Ht. unfold calc_mean_absolute_error, apply_rows.
  destruct (rows df) as [| x l]; [congruence |].
  cbn. unfold row_getitem.
  destruct (decide (TARGET_COLUMN cfg ∈ columns df)); [contradiction | reflexivity].
Qed.

(** Two scored rows with errors 2 and 1: MAE 3/2, MSE 5/2, RMSE the root
    of 5/2. *)
Example metrics_of_scored :
  calc_mean_absolute_error config scored "weight" = Ok (Num (3 # 2))
  /\ calc_mean_squared_error config scored "weight" = Ok (Num (5 # 2))
  /\ calc_root_mean_squared_error config scored "weight" = Ok (RootOf (5 # 2)).
Proof. repeat split; vm_compute; reflexivity. Qed.

(** C4, as the code has it: on a frame without rows that has the target
    column and the prediction column no metric raises; the result of
    [apply] is the empty series, the mean of no value is the missing-value
    marker, and so is its square root. *)
Theorem metrics_of_no_rows (cfg : PredictionConfig) (cols : list string)
    (model_feature_name : string) :
  TARGET_COLUMN cfg ∈ cols ->
  column_name_predicted_target cfg model_feature_name ∈ cols ->
  calc_mean_absolute_error cfg (mkDataFrame cols []) model_feature_name
  = Ok NaN
  /\ calc_mean_squared_error cfg (mkDataFrame cols []) model_feature_name
     = Ok NaN
  /\ calc_root_mean_squared_error cfg (mkDataFrame cols []) model_feature_name
     = Ok RootNaN.
Proof. intros _ _. repeat split. Qed.

(** The empty slice of the scored frame: both columns, no rows. *)
Lemma metrics_of_no_rows_witness :
  calc_mean_absolute_error config
    (mkDataFrame ["mpg"; "predicted_mpg_weight"] []) "weight"
  = Ok NaN
  /\ calc_mean_squared_error config
       (mkDataFrame ["mpg"; "predicted_mpg_weight"] []) "weight"
     = Ok NaN
  /\ calc_root_mean_squared_error config
       (mkDataFrame ["mpg"; "predicted_mpg_weight"] []) "weight"
     = Ok RootNaN.
Proof.
  apply (metrics_of_no_rows config ["mpg"; "predicted_mpg_weight"] "weight").
  - apply list_elem_of_here.
  - apply list_elem_of_further, list_elem_of_here.
Defined.

(** C4, as stated, fails: on the empty slice of the scored frame the three
    metrics return and none of them raises. *)
Lemma metrics_of_empty_frame_return :
  calc_mean_absolute_error config scored_empty "weight" = Ok NaN
  /\ calc_mean_squared_error config scored_empty "weight" = Ok NaN
  /\ calc_root_mean_squared_error config scored_empty "weight" = Ok RootNaN
  /\ ~ (exists e, calc_mean_absolute_error config scored_empty "weight" = Raise e)
  /\ ~ (exists e, calc_mean_squared_error config scored_empty "weight" = Raise e)
  /\ ~ (exists e, calc_root_mean_squared_error config scored_empty "weight"
                  = Raise e).
Proof.
  repeat split; try reflexivity; intros [e He]; discriminate He.
Qed.

End MetricFacts.

(** ** Reordering keeps the rows *)

Module PermutationFacts.
Import Frame PredictionUtils ReorderFacts Examples.

Section Reorder.
Context {R : NumpyRandom} {RL : NumpyRandomLaws R}.
Context {S : ArgSort} {SL : ArgSortLaws S}.

(** C10, as the code has it: on a frame whose index labels are the
    positions 0 .. n-1 in some order (the default index among them)
    [randomise_dataframe_rows] returns a frame with the same columns whose
    rows are a rearrangement of the rows given; so does
    [sort_dataframe_by_feature] on every frame, for a feature that is one of
    its columns.  In both cases the number of rows is unchanged. *)
Theorem row_reordering_permutes :
  (forall (g : rng_state) (df : DataFrame),
      labels df ≡ₚ Z.of_nat <$> seq 0 (length (rows df)) ->
      exists df', (randomise_dataframe_rows g df).1 = Ok df'
                  /\ columns df' = columns df
                  /\ rows df' ≡ₚ rows df
                  /\ length (rows df') = length (rows df))
  /\ (forall (df : DataFrame) (feature : string),
         feature ∈ columns df ->
         exists df', sort_dataframe_by_feature df feature = Ok df'
                     /\ columns df' = columns df
                     /\ rows df' ≡ₚ rows df
                     /\ length (rows df') = length (rows df)).
Proof.
  split.
  - intros g df Hidx.
    destruct (randomise_positional_index g df Hidx) as (df' & Hres & Hc & Hp).
    exists df'. repeat split; auto. now rewrite Hp.
  - intros df feature Hcol.
    destruct (sort_dataframe_by_feature_permutes df feature Hcol)
      as (df' & Hres & Hc & Hp).
    exists df'. repeat split; auto. now rewrite Hp.
Qed.

End Reorder.

(** The example listings under the rotating generator and the merge sort. *)
Lemma row_reordering_permutes_witness :
  (exists df',
      (randomise_dataframe_rows (H := Reference.rotating) 0%nat cars).1 = Ok df'
      /\ columns df' = columns cars
      /\ rows df' ≡ₚ rows cars
      /\ length (rows df') = length (rows cars))
  /\ (exists df',
         sort_dataframe_by_feature (H := Reference.merge_argsort) cars "weight"
         = Ok df'
         /\ columns df' = columns cars
         /\ rows df' ≡ₚ rows cars
         /\ length (rows df') = length (rows cars)).
Proof.
  destruct (@row_reordering_permutes
              Reference.rotating ReferenceFacts.rotating_laws
              Reference.merge_argsort ReferenceFacts.merge_argsort_laws)
    as [Hrandomise Hsort].
  split.
  - apply Hrandomise. reflexivity.
  - apply Hsort. apply list_elem_of_further, list_elem_of_here.
Defined.

(** On the example listings: seeded with 1 the rotating generator gives the
    labels 1, 2, 3, 0; sorting by weight gives 3, 2, 0, 1. *)
Example reordered_cars :
  labels <$> (randomise_dataframe_rows (H := Reference.rotating) 0%nat cars).1
  = Ok [1; 2; 3; 0]
  /\ labels <$> sort_dataframe_by_feature (H := Reference.merge_argsort)
                  cars "weight"
     = Ok [3; 2; 0; 1].
Proof. split; vm_compute; reflexivity. Qed.

(** C10, as stated, fails: the frame [cars_tail] carries the labels 2 and 3,
    the labels looked up are 0 and 1, and whatever order a generator gives
    them the lookup raises [KeyError]: no frame is returned. *)
Lemma randomise_relabelled_frame_raises :
  ~ (exists (R : NumpyRandom) (g : rng_state) (df' : DataFrame),
        NumpyRandomLaws R
        /\ (randomise_dataframe_rows g cars_tail).1 = Ok df')
  /\ (randomise_dataframe_rows (H := Reference.rotating) 0%nat cars_tail).1
     = Raise KeyError.
Proof.
  split; [| reflexivity].
  intros (R & g & df' & RL & Hres).
  rewrite (randomise_missing_label g cars_tail) in Hres; [discriminate Hres |].
  exists 0%nat. split; [cbn; lia |].
  cbn. intros Hin. apply elem_of_cons in Hin as [Hin | Hin]; [discriminate |].
  apply elem_of_cons in Hin as [Hin | Hin]; [discriminate |].
  now apply elem_of_nil in Hin.
Qed.

End PermutationFacts.

(** * Further properties of the utilities *)

(** ** Distance engine: metric laws *)

Module DistanceLaws.
Import Distance DistanceFacts.

(** X1: Both distance variants are symmetric in their operands, missing values
    included. *)
Theorem distance_symmetric (val1 val2 : value) :
  calc_euclidean_dist val1 val2 = calc_euclidean_dist val2 val1
  /\ (calc_euclidean_dist_using_scipy val1 val2
      == calc_euclidean_dist_using_scipy val2 val1)%Q.
Proof.
  destruct val1 as [| a], val2 as [| b]; try (split; reflexivity).
  rewrite !calc_euclidean_dist_floor, !calc_euclidean_dist_using_scipy_abs.
  rewrite (Qabs_Qminus a b). split; reflexivity.
Qed.

(** X2: On two numbers at most 2^26 apart, where the square of the
    difference is exact in every number type the operands can have, the
    truncating variant is at most the exact distance and less than 1 below
    it. *)
Theorem truncated_distance_gap (a b : Q) :
  (Qabs (a - b) <= inject_Z (2 ^ 26))%Q ->
  (inject_Z (calc_euclidean_dist (Num a) (Num b))
   <= calc_euclidean_dist_using_scipy (Num a) (Num b)
   /\ calc_euclidean_dist_using_scipy (Num a) (Num b)
      < inject_Z (calc_euclidean_dist (Num a) (Num b)) + 1)%Q.
Proof.
  intros _.
  rewrite calc_euclidean_dist_floor, calc_euclidean_dist_using_scipy_abs.
  destruct (floor_bounds (Qabs (a - b))) as [Hlo Hhi].
  split; [exact Hlo |]. now rewrite inject_Z_plus in Hhi.
Qed.

(** The numbers 3.75 and 1: the distances 2 and 2.75. *)
Lemma truncated_distance_gap_witness :
  (inject_Z (calc_euclidean_dist (Num (15 # 4)) (Num 1))
   <= calc_euclidean_dist_using_scipy (Num (15 # 4)) (Num 1)
   /\ calc_euclidean_dist_using_scipy (Num (15 # 4)) (Num 1)
      < inject_Z (calc_euclidean_dist (Num (15 # 4)) (Num 1)) + 1)%Q.
Proof.
  apply (truncated_distance_gap (15 # 4) 1). vm_compute. discriminate.
Defined.

Lemma Qabs_zero_iff (x : Q) : (Qabs x == 0 <-> x == 0)%Q.
Proof.
  split; intros H.
  - destruct (Qabs_Qle_condition x 0) as [Hc _].
    destruct Hc as [Hlo Hhi]; [rewrite H; apply Qle_refl |].
    apply Qle_antisym; [exact Hhi | exact Hlo].
  - rewrite H. reflexivity.
Qed.

(** X3: The exact variant is 0 exactly when both values are present and
    equal: a missing value is at distance 0 from nothing, not even from
    another missing value.  The truncating variant is 0 only on numbers
    less than 1 apart (for differences up to 2^26), and it is 0 on some
    that differ, as on 0.5 and 0. *)
Theorem zero_distance (val1 val2 : value) :
  ((calc_euclidean_dist_using_scipy val1 val2 == 0)%Q
   <-> exists a b : Q, val1 = Num a /\ val2 = Num b /\ (a == b)%Q)
  /\ (forall a b : Q,
        val1 = Num a -> val2 = Num b ->
        (Qabs (a - b) <= inject_Z (2 ^ 26))%Q ->
        calc_euclidean_dist val1 val2 = 0 -> (Qabs (a - b) < 1)%Q)
  /\ calc_euclidean_dist (Num (1 # 2)) (Num 0) = 0.
Proof.
  split; [| split; [| reflexivity]].
  - destruct val1 as [| a], val2 as [| b];
      try (split; [intros H; vm_compute in H; discriminate H
                  | intros (a' & b' & Ha & Hb & _); discriminate]).
    rewrite calc_euclidean_dist_using_scipy_abs, Qabs_zero_iff. split.
    + intros H. exists a, b. split; [reflexivity |]. split; [reflexivity |]. lra.
    + intros (a' & b' & Ha & Hb & Heq).
      injection Ha as <-. injection Hb as <-. lra.
  - intros a b -> -> _ Hz. rewrite calc_euclidean_dist_floor in Hz.
    destruct (floor_bounds (Qabs (a - b))) as [_ Hhi].
    rewrite Hz in Hhi. exact Hhi.
Qed.

(** X4: On three numbers the exact variant obeys the triangle inequality. *)
Theorem scipy_distance_triangle (a b c : Q) :
  (calc_euclidean_dist_using_scipy (Num a) (Num c)
   <= calc_euclidean_dist_using_scipy (Num a) (Num b)
      + calc_euclidean_dist_using_scipy (Num b) (Num c))%Q.
Proof.
  rewrite !calc_euclidean_dist_using_scipy_abs.
  assert (Heq : (a - c == (a - b) + (b - c))%Q) by ring.
  rewrite Heq. apply Qabs_triangle.
Qed.

(** X5: When the observation compared against is missing, every value of the
    series gets the same distance 32, whatever it is. *)
Theorem compare_observations_missing_query (obs2 : list value) :
  compare_observations NaN obs2 = replicate (length obs2) (inject_Z 32).
Proof.
  unfold compare_observations.
  induction obs2 as [| x obs2 IH]; [reflexivity |].
  cbn. rewrite <- IH. now destruct x.
Qed.

(** [compare_observations] keeps the length of the series, gives no
    negative distance, and gives 32 at every position whose value is
    missing. *)
Lemma compare_observations_entries (obs1 : value) (obs2 : list value) :
  length (compare_observations obs1 obs2) = length obs2
  /\ Forall (fun d => 0 <= d)%Q (compare_observations obs1 obs2)
  /\ (forall i : nat, obs2 !! i = Some NaN ->
        compare_observations obs1 obs2 !! i = Some (inject_Z 32)).
Proof.
  unfold compare_observations. split; [apply length_fmap |]. split.
  - apply Forall_fmap, Forall_forall. intros x _. apply distances_nonneg.
  - intros i Hi. rewrite list_lookup_fmap, Hi. reflexivity.
Qed.

End DistanceLaws.

(** ** Feature combination generator: what the result holds *)

Module CombinationLaws.
Import PredictionUtils CombinationFacts.

(** Whatever the minimum length, the result is the concatenation of the
    combinations of consecutive sizes. *)
Lemma generate_combinations_groups (cfg : PredictionConfig)
    (features : list string) :
  exists a n : nat,
    (generate_combinations_of_features cfg features).1
    = concat (combinations features <$> seq a n).
Proof.
  destruct (decide (MIN_FEATURES_COMBO_LEN cfg < Z.of_nat (length features)))
    as [Hlt | Hge].
  - destruct (decide (1 <= MIN_FEATURES_COMBO_LEN cfg)) as [Hlo | Hlo].
    + rewrite generate_combinations_below_count by lia. eauto.
    + rewrite generate_combinations_nonpositive by lia.
      exists 0%nat, 0%nat. reflexivity.
  - unfold generate_combinations_of_features.
    rewrite bool_decide_false by assumption. exists 0%nat, 0%nat. reflexivity.
Qed.

Lemma elem_of_concat_combinations (features c : list string) (a n : nat) :
  c ∈ concat (combinations features <$> seq a n)
  <-> c `sublist_of` features /\ (a <= length c < a + n)%nat.
Proof.
  rewrite list_elem_of_In, in_concat. split.
  - intros (group & Hgroup & Hc).
    apply list_elem_of_In, list_elem_of_fmap in Hgroup as (r & -> & Hr).
    apply list_elem_of_In, elem_of_combinations in Hc as [Hsub Hlen].
    apply elem_of_seq in Hr. split; [assumption | lia].
  - intros [Hsub Hlen]. exists (combinations features (length c)). split.
    + apply list_elem_of_In, list_elem_of_fmap_2, elem_of_seq. lia.
    + apply list_elem_of_In, elem_of_combinations. auto.
Qed.

(** X6: For a minimum length from 1 to one below the number of features the
    result holds exactly the subsequences of the features that have at
    least the minimum length. *)
Theorem generate_combinations_members (cfg : PredictionConfig)
    (features c : list string) :
  1 <= MIN_FEATURES_COMBO_LEN cfg < Z.of_nat (length features) ->
  c ∈ (generate_combinations_of_features cfg features).1
  <-> c `sublist_of` features
      /\ MIN_FEATURES_COMBO_LEN cfg <= Z.of_nat (length c).
Proof.
  intros Hrange. rewrite generate_combinations_below_count by assumption.
  cbn [fst]. rewrite elem_of_concat_combinations. split.
  - intros [Hsub Hlen]. split; [assumption | lia].
  - intros [Hsub Hlen]. split; [assumption |].
    apply sublist_length in Hsub. lia.
Qed.

(** The pair (A, C) among the combinations of A, B, C of size 2 and more. *)
Lemma generate_combinations_members_witness :
  1 <= MIN_FEATURES_COMBO_LEN Examples.config < Z.of_nat (length ["A"; "B"; "C"])
  /\ (["A"; "C"] ∈ (generate_combinations_of_features Examples.config
                      ["A"; "B"; "C"]).1
      <-> ["A"; "C"] `sublist_of` ["A"; "B"; "C"]
          /\ MIN_FEATURES_COMBO_LEN Examples.config
             <= Z.of_nat (length ["A"; "C"])).
Proof.
  split; [split; [discriminate | reflexivity] |].
  apply (generate_combinations_members Examples.config ["A"; "B"; "C"]
           ["A"; "C"]).
  split; [discriminate | reflexivity].
Defined.

Lemma NoDup_concat_combinations (features : list string) (a n : nat) :
  NoDup features -> NoDup (concat (combinations features <$> seq a n)).
Proof.
  intros Hnd. revert a. induction n as [| n IH]; intros a; [constructor |].
  cbn. apply NoDup_app. split; [| split].
  - now apply NoDup_combinations.
  - intros c Hc Hc'. apply elem_of_combinations in Hc as [_ Hlen].
    apply elem_of_concat_combinations in Hc' as [_ Hlen']. lia.
  - apply IH.
Qed.

(** X7: When the training columns are distinct, no combination is returned
    twice, whatever the minimum length. *)
Theorem generate_combinations_NoDup (cfg : PredictionConfig)
    (features : list string) :
  NoDup features ->
  NoDup (generate_combinations_of_features cfg features).1.
Proof.
  intros Hnd. destruct (generate_combinations_groups cfg features)
    as (a & n & ->). now apply NoDup_concat_combinations.
Qed.

(** Three distinct features. *)
Lemma generate_combinations_NoDup_witness :
  NoDup ["A"; "B"; "C"]
  /\ NoDup (generate_combinations_of_features Examples.config
              ["A"; "B"; "C"]).1.
Proof.
  assert (Hnd : NoDup ["A"; "B"; "C"]).
  { apply (bool_decide_unpack (NoDup ["A"; "B"; "C"])). reflexivity. }
  split; [exact Hnd |].
  apply (generate_combinations_NoDup Examples.config ["A"; "B"; "C"] Hnd).
Defined.

Lemma sizes_concat_combinations (features : list string) (a n : nat) :
  StronglySorted le (length <$> concat (combinations features <$> seq a n)).
Proof.
  revert a. induction n as [| n IH]; intros a; [constructor |].
  cbn. rewrite fmap_app. apply StronglySorted_app_2; [| | apply IH].
  - intros x1 x2 Hx1 Hx2.
    apply list_elem_of_fmap in Hx1 as (c1 & -> & Hc1).
    apply list_elem_of_fmap in Hx2 as (c2 & -> & Hc2).
    apply elem_of_combinations in Hc1 as [_ Hl1].
    apply elem_of_concat_combinations in Hc2 as [_ Hl2]. lia.
  - assert (Hall : Forall (fun c => length c = a) (combinations features a)).
    { apply Forall_forall. intros c Hc.
      now apply elem_of_combinations in Hc as [_ Hlen]. }
    induction Hall as [| c l Hc Hall IHl]; cbn; constructor; [assumption |].
    apply Forall_fmap. eapply Forall_impl; [exact Hall |]. cbn. lia.
Qed.

(** X8: The combinations are returned by size: no combination is followed by a
    shorter one. *)
Theorem generate_combinations_sizes_ascend (cfg : PredictionConfig)
    (features : list string) :
  StronglySorted le
    (length <$> (generate_combinations_of_features cfg features).1).
Proof.
  destruct (generate_combinations_groups cfg features) as (a & n & ->).
  apply sizes_concat_combinations.
Qed.

Lemma combinations_too_long {A : Type} (l : list A) (r : nat) :
  (length l < r)%nat -> combinations l r = [].
Proof.
  revert r. induction l as [| x xs IH]; intros r Hr.
  - destruct r; [cbn in Hr; lia | reflexivity].
  - destruct r; [lia |]. cbn in *. now rewrite !IH by lia.
Qed.

Lemma combinations_zero {A : Type} (l : list A) : combinations l 0 = [[]].
Proof. now destruct l. Qed.

Lemma count_combinations_step {A : Type} (x : A) (xs : list A) (n : nat) :
  sum_list_with (fun r => length (combinations (x :: xs) r)) (seq 0 (S n))
  = (sum_list_with (fun r => length (combinations xs r)) (seq 0 n)
     + sum_list_with (fun r => length (combinations xs r)) (seq 0 (S n)))%nat.
Proof.
  induction n as [| n IH].
  - cbn. now rewrite combinations_zero.
  - assert (Hsplit : sum_list_with (fun r => length (combinations xs r))
                      (seq 0 (S n))
                    = (sum_list_with (fun r => length (combinations xs r))
                         (seq 0 n)
                       + length (combinations xs n))%nat).
    { rewrite seq_S, sum_list_with_app. cbn. lia. }
    rewrite (seq_S (S n)), !sum_list_with_app, IH.
    cbn [sum_list_with Nat.add].
    change (combinations (x :: xs) (S n))
      with ((cons x <$> combinations xs n) ++ combinations xs (S n)).
    rewrite length_app, length_fmap. lia.
Qed.

Lemma count_combinations {A : Type} (l : list A) :
  sum_list_with (fun r => length (combinations l r)) (seq 0 (S (length l)))
  = (2 ^ length l)%nat.
Proof.
  induction l as [| x xs IH]; [reflexivity |].
  cbn [length]. rewrite count_combinations_step.
  rewrite (seq_S (S (length xs))), sum_list_with_app, IH.
  cbn [sum_list_with Nat.add]. rewrite combinations_too_long by lia.
  cbn [length]. rewrite Nat.pow_succ_r'. lia.
Qed.

Lemma length_concat_combinations (features : list string) (a n : nat) :
  length (concat (combinations features <$> seq a n))
  = sum_list_with (fun r => length (combinations features r)) (seq a n).
Proof.
  revert a. induction n as [| n IH]; intros a; [reflexivity |].
  cbn. now rewrite length_app, IH.
Qed.

(** X9: With minimum length 1 and at least two features the generator returns
    every non-empty subset: 2^N - 1 combinations for N features. *)
Theorem generate_combinations_count (cfg : PredictionConfig)
    (features : list string) :
  MIN_FEATURES_COMBO_LEN cfg = 1 ->
  (2 <= length features)%nat ->
  length (generate_combinations_of_features cfg features).1
  = (2 ^ length features - 1)%nat.
Proof.
  intros Hmin Hlen. rewrite generate_combinations_below_count by lia.
  cbn [fst]. rewrite length_concat_combinations, Hmin.
  pose proof (count_combinations features) as Hall.
  cbn [seq sum_list_with] in Hall. rewrite combinations_zero in Hall.
  replace (length features + 1 - Z.to_nat 1)%nat with (length features) by lia.
  change (Z.to_nat 1) with 1%nat. cbn [length] in Hall. lia.
Qed.

(** Three features, minimum length 1: seven combinations. *)
Lemma generate_combinations_count_witness :
  MIN_FEATURES_COMBO_LEN (mkPredictionConfig "mpg" 1) = 1
  /\ (2 <= length ["A"; "B"; "C"])%nat
  /\ length (generate_combinations_of_features (mkPredictionConfig "mpg" 1)
               ["A"; "B"; "C"]).1
     = (2 ^ length ["A"; "B"; "C"] - 1)%nat.
Proof.
  split; [reflexivity |]. split; [cbn; lia |].
  apply (generate_combinations_count (mkPredictionConfig "mpg" 1)
           ["A"; "B"; "C"]); [reflexivity | cbn; lia].
Defined.

(** X10: A minimum length of 0 or less is not reported: with at least one
    feature the generator returns no combination and prints nothing, the
    error line being printed in the other branch only. *)
Theorem generate_combinations_silent_below_one (cfg : PredictionConfig)
    (features : list string) :
  MIN_FEATURES_COMBO_LEN cfg < 1 ->
  MIN_FEATURES_COMBO_LEN cfg < Z.of_nat (length features) ->
  generate_combinations_of_features cfg features = ([], []).
Proof. apply generate_combinations_nonpositive. Qed.

(** Two features against a minimum length of 0. *)
Lemma generate_combinations_silent_below_one_witness :
  MIN_FEATURES_COMBO_LEN (mkPredictionConfig "mpg" 0) < 1
  /\ MIN_FEATURES_COMBO_LEN (mkPredictionConfig "mpg" 0)
     < Z.of_nat (length ["A"; "B"])
  /\ generate_combinations_of_features (mkPredictionConfig "mpg" 0) ["A"; "B"]
     = ([], []).
Proof.
  split; [reflexivity |]. split; [reflexivity |].
  apply (generate_combinations_silent_below_one (mkPredictionConfig "mpg" 0)
           ["A"; "B"]); reflexivity.
Defined.

End CombinationLaws.

(** ** Row reordering: what the lookup by label implies *)

Module ReorderLaws.
Import Frame PredictionUtils FrameFacts ReorderFacts Examples.

Lemma filter_label_cases (l : list (Z * gmap string value)) (k : Z) :
  NoDup l.*1 ->
  filter (fun r => r.1 = k) l = []
  \/ exists r, r ∈ l /\ r.1 = k /\ filter (fun r' => r'.1 = k) l = [r].
Proof.
  intros Hnd. destruct (decide (k ∈ l.*1)) as [Hin | Hnot].
  - right. apply list_elem_of_fmap in Hin as (r & -> & Hr).
    exists r. split; [assumption |]. split; [reflexivity |].
    now apply filter_label_unique.
  - left. now apply filter_label_absent.
Qed.

(** With distinct labels, the rows found under a label do not depend on
    the order the rows stand in. *)
Lemma rows_labelled_rearranged (df df' : DataFrame) (k : Z) :
  NoDup (labels df) -> rows df' ≡ₚ rows df ->
  rows_labelled df' k = rows_labelled df k.
Proof.
  intros Hnd Hperm. unfold rows_labelled.
  assert (Hf : filter (fun r => r.1 = k) (rows df')
               ≡ₚ filter (fun r => r.1 = k) (rows df)) by now rewrite Hperm.
  destruct (filter_label_cases (rows df) k Hnd) as [Hnil | (r & _ & _ & Hone)].
  - rewrite Hnil in Hf |- *. now apply Permutation_nil_r in Hf.
  - rewrite Hone in Hf |- *. now apply Permutation_singleton_r in Hf.
Qed.

Lemma loc_rearranged (df df' : DataFrame) (ls : list Z) :
  columns df' = columns df -> NoDup (labels df) -> rows df' ≡ₚ rows df ->
  loc df' ls = loc df ls.
Proof.
  intros Hcols Hnd Hperm. unfold loc.
  assert (Hlabels : labels df' ≡ₚ labels df).
  { unfold labels. now rewrite Hperm. }
  assert (Hbind : ls ≫= rows_labelled df' = ls ≫= rows_labelled df).
  { induction ls as [| l ls IH]; [reflexivity |].
    cbn. now rewrite IH, (rows_labelled_rearranged df df' l). }
  destruct (decide (Forall (fun l => l ∈ labels df) ls)) as [Hall | Hall].
  - rewrite decide_True.
    + now rewrite Hcols, Hbind.
    + eapply Forall_impl; [exact Hall |]. cbn. intros l Hl. now rewrite Hlabels.
  - rewrite decide_False; [reflexivity |].
    intros Hall'. apply Hall. eapply Forall_impl; [exact Hall' |]. cbn.
    intros l Hl. now rewrite <- Hlabels.
Qed.

Section Randomise.
Context {R : NumpyRandom} {RL : NumpyRandomLaws R}.

Lemma randomise_rearranged (g g' : rng_state) (df df' : DataFrame) :
  columns df' = columns df -> NoDup (labels df) -> rows df' ≡ₚ rows df ->
  randomise_dataframe_rows g' df' = randomise_dataframe_rows g df.
Proof.
  intros Hcols Hnd Hperm. unfold randomise_dataframe_rows.
  rewrite (np_random_seed_resets 1 g' g), (Permutation_length Hperm).
  destruct (np_random_permutation _ _) as [shuffled g2].
  now rewrite (loc_rearranged df df').
Qed.

(** X11: With distinct index labels, the frame returned by
    [randomise_dataframe_rows] does not depend on the order the rows come
    in: two frames with the same columns and the same rows in different
    orders are shuffled to the same frame (or fail alike). *)
Theorem randomise_forgets_row_order (g g' : rng_state) (df df' : DataFrame) :
  columns df' = columns df -> NoDup (labels df) -> rows df' ≡ₚ rows df ->
  randomise_dataframe_rows g' df' = randomise_dataframe_rows g df.
Proof. apply randomise_rearranged. Qed.

(** X12: Shuffling a frame that was already shuffled changes nothing: the
    second call returns the frame the first call returned. *)
Theorem randomise_twice (g g' : rng_state) (df : DataFrame) :
  labels df ≡ₚ Z.of_nat <$> seq 0 (length (rows df)) ->
  exists df1,
    (randomise_dataframe_rows g df).1 = Ok df1
    /\ (randomise_dataframe_rows g' df1).1 = Ok df1.
Proof.
  intros Hidx.
  destruct (randomise_positional_index g df Hidx) as (df1 & Hres & Hc & Hp).
  exists df1. split; [assumption |].
  rewrite (randomise_rearranged g g' df df1); auto.
  rewrite Hidx. apply NoDup_fmap; [apply _ | apply NoDup_seq].
Qed.

(** X13: The index travels with the rows: the labels of the returned frame are
    the shuffled positions, in the order the generator gave them. *)
Theorem randomise_keeps_labels (g : rng_state) (df : DataFrame) :
  labels df ≡ₚ Z.of_nat <$> seq 0 (length (rows df)) ->
  exists df',
    (randomise_dataframe_rows g df).1 = Ok df'
    /\ labels df'
       = Z.of_nat <$> (np_random_permutation (np_random_seed 1 g)
                         (length (rows df))).1.
Proof.
  intros Hidx.
  assert (Hnd : NoDup (labels df)).
  { rewrite Hidx. apply NoDup_fmap; [apply _ | apply NoDup_seq]. }
  unfold randomise_dataframe_rows.
  pose proof (np_random_permutation_range (np_random_seed 1 g)
                (length (rows df))) as Hrange.
  destruct (np_random_permutation _ _) as [shuffled g2]. cbn [fst] in *.
  assert (Hall : Forall (fun l => l ∈ labels df) (Z.of_nat <$> shuffled)).
  { apply Forall_forall. intros l Hl. rewrite Hidx, <- Hrange. exact Hl. }
  unfold loc. rewrite decide_True by assumption.
  eexists. split; [reflexivity |]. unfold labels at 1. cbn [rows].
  induction Hall as [| l ls Hl _ IH]; [reflexivity |].
  cbn. rewrite fmap_app. unfold labels in IH. rewrite IH. f_equal.
  unfold rows_labelled.
  destruct (filter_label_cases (rows df) l Hnd) as [Hnil | (r & _ & Hr & ->)].
  - exfalso. apply list_elem_of_fmap in Hl as (r & -> & Hr).
    assert (Hin : r ∈ filter (fun r' => r'.1 = r.1) (rows df))
      by (apply list_elem_of_filter; auto).
    rewrite Hnil in Hin. now apply elem_of_nil in Hin.
  - cbn. now rewrite Hr.
Qed.

Context {S : ArgSort} {SL : ArgSortLaws S}.

(** X14: Shuffling after sorting undoes the sort: on a frame with distinct
    labels [randomise_dataframe_rows] returns for the sorted frame what it
    returns for the frame as it was. *)
Theorem randomise_after_sort (g : rng_state) (df : DataFrame)
    (feature : string) :
  NoDup (labels df) -> feature ∈ columns df ->
  exists sorted,
    sort_dataframe_by_feature df feature = Ok sorted
    /\ randomise_dataframe_rows g sorted = randomise_dataframe_rows g df.
Proof.
  intros Hnd Hcol.
  destruct (sort_dataframe_by_feature_permutes df feature Hcol)
    as (sorted & Hres & Hc & Hp).
  exists sorted. split; [assumption |]. now apply randomise_rearranged.
Qed.

End Randomise.

(** The example listings, as they are and with the first two rows swapped. *)
Lemma randomise_forgets_row_order_witness :
  columns (mkDataFrame ["mpg"; "weight"]
             [(1, car 15 3693); (0, car 18 3504); (2, car 24 2372);
              (3, car 27 2130)])
  = columns cars
  /\ NoDup (labels cars)
  /\ randomise_dataframe_rows (H := Reference.rotating) 7%nat
       (mkDataFrame ["mpg"; "weight"]
          [(1, car 15 3693); (0, car 18 3504); (2, car 24 2372);
           (3, car 27 2130)])
     = randomise_dataframe_rows (H := Reference.rotating) 0%nat cars.
Proof.
  assert (Hnd : NoDup (labels cars)).
  { apply (bool_decide_unpack (NoDup (labels cars))). reflexivity. }
  split; [reflexivity |]. split; [exact Hnd |].
  apply (@randomise_forgets_row_order Reference.rotating
           ReferenceFacts.rotating_laws); [reflexivity | exact Hnd |].
  apply Permutation_swap.
Defined.

(** The example listings shuffled twice, from two generator states. *)
Lemma randomise_twice_witness :
  exists df1,
    (randomise_dataframe_rows (H := Reference.rotating) 0%nat cars).1 = Ok df1
    /\ (randomise_dataframe_rows (H := Reference.rotating) 7%nat df1).1
       = Ok df1.
Proof.
  apply (@randomise_twice Reference.rotating ReferenceFacts.rotating_laws).
  reflexivity.
Defined.

(** The example listings under the rotating generator. *)
Lemma randomise_keeps_labels_witness :
  exists df',
    (randomise_dataframe_rows (H := Reference.rotating) 0%nat cars).1 = Ok df'
    /\ labels df' = [1; 2; 3; 0].
Proof.
  apply (@randomise_keeps_labels Reference.rotating
           ReferenceFacts.rotating_laws 0%nat cars).
  reflexivity.
Defined.

(** The example listings sorted by weight, then shuffled. *)
Lemma randomise_after_sort_witness :
  exists sorted,
    sort_dataframe_by_feature (H := Reference.merge_argsort) cars "weight"
    = Ok sorted
    /\ randomise_dataframe_rows (H := Reference.rotating) 0%nat sorted
       = randomise_dataframe_rows (H := Reference.rotating) 0%nat cars.
Proof.
  apply (@randomise_after_sort Reference.rotating ReferenceFacts.rotating_laws
           Reference.merge_argsort ReferenceFacts.merge_argsort_laws).
  - apply (bool_decide_unpack (NoDup (labels cars))). reflexivity.
  - apply list_elem_of_further, list_elem_of_here.
Defined.

End ReorderLaws.

(** ** Sorting and the nearest neighbours *)

Module NearestLaws.
Import Frame PredictionUtils FrameFacts ReorderFacts SortFacts NeighborFacts
  Examples.

Lemma missing_keys_sorted (feature : string)
    (l : list (Z * gmap string value)) :
  Forall (fun r => isnan (cell r feature) = true) l ->
  StronglySorted (key_not_after feature) l.
Proof.
  induction 1 as [| r l Hr Hl IH]; constructor; [assumption |].
  eapply Forall_impl; [exact Hl |]. cbn. intros r' Hr' q' Hq'.
  rewrite Hq' in Hr'. discriminate Hr'.
Qed.

Lemma numeric_keys_sorted (feature : string)
    (l : list (Z * gmap string value)) :
  Forall (fun r => isnan (cell r feature) = false) l ->
  StronglySorted Qle (present ((fun r => cell r feature) <$> l)) ->
  StronglySorted (key_not_after feature) l.
Proof.
  induction 1 as [| r l Hr Hl IH]; intros Hsorted; [constructor |].
  cbn in Hsorted. destruct (cell r feature) as [| q] eqn:Hq; [discriminate |].
  cbn in Hsorted. apply StronglySorted_cons in Hsorted as [Hall Hsorted].
  constructor; [now apply IH |].
  apply Forall_forall. intros r' Hr' q' Hq'. exists q. split; [assumption |].
  rewrite Forall_forall in Hall. apply Hall.
  unfold present. apply list_elem_of_omap. exists (Num q'). split; [| reflexivity].
  apply list_elem_of_fmap. exists r'. split; [now symmetry | assumption].
Qed.

Section Sorted.
Context {S : ArgSort} {SL : ArgSortLaws S}.

Lemma sorted_rows_strongly_sorted (df : DataFrame) (feature : string) :
  feature ∈ columns df ->
  exists sorted,
    sort_dataframe_by_feature df feature = Ok sorted
    /\ columns sorted = columns df
    /\ StronglySorted (key_not_after feature) (rows sorted).
Proof.
  intros Hcol.
  destruct (sort_dataframe_by_feature_ascending df feature Hcol)
    as (ordered & missing & Hres & Hsorted & Hnum & Hmissing).
  eexists. split; [exact Hres |]. split; [reflexivity |]. cbn [rows].
  apply StronglySorted_app_2.
  - intros r r' _ Hr' q' Hq'. subst missing.
    apply list_elem_of_filter in Hr' as [Hr' _]. rewrite Hq' in Hr'.
    discriminate Hr'.
  - apply numeric_keys_sorted; [assumption |].
    apply Sorted_StronglySorted; [| assumption].
    intros x y z. apply Qle_trans.
  - apply missing_keys_sorted. subst missing. apply Forall_forall.
    intros r Hr. now apply list_elem_of_filter in Hr as [Hr _].
Qed.

(** X16: Sorting and then predicting averages the nearest rows: the sorted
    frame has the columns and the rows of the frame given, in another
    order; on it [get_nearest_neighbors] returns the mean target of the
    first five rows, and no row left out has a smaller key than a row that
    is used; rows with a missing key are used only when fewer than five
    rows have a key. *)
Theorem nearest_neighbors_after_sort (cfg : PredictionConfig) (df : DataFrame)
    (feature : string) :
  TARGET_COLUMN cfg ∈ columns df -> feature ∈ columns df ->
  exists sorted out,
    sort_dataframe_by_feature df feature = Ok sorted
    /\ columns sorted = columns df
    /\ rows sorted ≡ₚ rows df
    /\ get_nearest_neighbors cfg sorted feature
       = Ok (mean ((fun r => cell r (TARGET_COLUMN cfg))
                     <$> take 5 (rows sorted)), out)
    /\ (forall r r', r ∈ take 5 (rows sorted) -> r' ∈ drop 5 (rows sorted) ->
          forall q' : Q, cell r' feature = Num q' ->
            exists q : Q, cell r feature = Num q /\ (q <= q')%Q).
Proof.
  intros Htarget Hcol.
  destruct (sorted_rows_strongly_sorted df feature Hcol)
    as (sorted & Hres & Hcols & Hsorted).
  destruct (get_nearest_neighbors_columns cfg sorted feature) as [out Hout];
    [now rewrite Hcols | now rewrite Hcols |].
  destruct (sort_dataframe_by_feature_permutes df feature Hcol)
    as (sorted' & Hres' & _ & Hperm).
  rewrite Hres in Hres'. injection Hres' as <-.
  exists sorted, out. split; [assumption |]. split; [assumption |].
  split; [assumption |]. split; [assumption |].
  intros r r' Hr Hr'. rewrite <- (take_drop 5 (rows sorted)) in Hsorted.
  exact (StronglySorted_app_1_elem_of _ _ _ r r' Hsorted Hr Hr').
Qed.

End Sorted.

(** The seven listings sorted by weight with the reference merge sort: the
    five lightest are used, the heaviest and the one without a weight are
    left out. *)
Lemma nearest_neighbors_after_sort_witness :
  exists sorted out,
    sort_dataframe_by_feature (H := Reference.merge_argsort) fleet "weight"
    = Ok sorted
    /\ columns sorted = columns fleet
    /\ rows sorted ≡ₚ rows fleet
    /\ get_nearest_neighbors config sorted "weight"
       = Ok (mean ((fun r => cell r "mpg") <$> take 5 (rows sorted)), out)
    /\ (forall r r', r ∈ take 5 (rows sorted) -> r' ∈ drop 5 (rows sorted) ->
          forall q' : Q, cell r' "weight" = Num q' ->
            exists q : Q, cell r "weight" = Num q /\ (q <= q')%Q).
Proof.
  apply (@nearest_neighbors_after_sort Reference.merge_argsort
           ReferenceFacts.merge_argsort_laws config fleet "weight").
  - apply list_elem_of_here.
  - apply list_elem_of_further, list_elem_of_here.
Defined.

Section Ascending.
Context {S : ArgSort} {SL : ArgSortLaws S}.

(** X15: For a feature that is a column, the frame returned by
    [sort_dataframe_by_feature] starts with the rows of the frame given
    whose key is present, all of them and no other, in ascending key order,
    and ends with the rows whose key is missing, in the order they had. *)
Theorem sorted_frame_ascending (df : DataFrame) (feature : string) :
  feature ∈ columns df ->
  exists ordered missing,
    sort_dataframe_by_feature df feature
    = Ok (mkDataFrame (columns df) (ordered ++ missing))
    /\ Sorted Qle (present ((fun r => cell r feature) <$> ordered))
    /\ Forall (fun r => isnan (cell r feature) = false) ordered
    /\ ordered ≡ₚ filter (fun r => isnan (cell r feature) = false) (rows df)
    /\ missing = filter (fun r => isnan (cell r feature) = true) (rows df).
Proof.
  intros Hcol.
  destruct (sort_dataframe_by_feature_ascending df feature Hcol)
    as (ordered & missing & Hres & Hsorted & Hnum & Hmissing).
  destruct (sort_dataframe_by_feature_permutes df feature Hcol)
    as (sorted & Hres' & _ & Hperm).
  rewrite Hres in Hres'. injection Hres' as <-. cbn [rows] in Hperm.
  exists ordered, missing. split; [assumption |]. split; [assumption |].
  split; [assumption |]. split; [| assumption].
  rewrite <- (filter_app_complement
                (fun r => isnan (cell r feature) = true) (rows df)) in Hperm.
  rewrite <- Hmissing, (comm (++) missing) in Hperm.
  apply Permutation_app_inv_r in Hperm. rewrite Hperm.
  erewrite list_filter_iff; [reflexivity |].
  intros r. cbn. destruct (isnan (cell r feature)); split; congruence.
Qed.

End Ascending.

(** The seven listings sorted by weight: six keys ascending, then the
    listing without a weight. *)
Lemma sorted_frame_ascending_witness :
  exists ordered missing,
    sort_dataframe_by_feature (H := Reference.merge_argsort) fleet "weight"
    = Ok (mkDataFrame (columns fleet) (ordered ++ missing))
    /\ Sorted Qle (present ((fun r => cell r "weight") <$> ordered))
    /\ Forall (fun r => isnan (cell r "weight") = false) ordered
    /\ ordered ≡ₚ filter (fun r => isnan (cell r "weight") = false) (rows fleet)
    /\ missing = filter (fun r => isnan (cell r "weight") = true) (rows fleet).
Proof.
  apply (@sorted_frame_ascending Reference.merge_argsort
           ReferenceFacts.merge_argsort_laws fleet "weight").
  apply list_elem_of_further, list_elem_of_here.
Defined.

End NearestLaws.

(** ** Nearest-neighbour average: what the rows and columns contribute *)

Module NeighborLaws.
Import Frame PredictionUtils NeighborFacts Examples.

(** X17: The prediction and the printed line depend on the first five rows
    only: frames with the same columns that agree on them give the same
    result. *)
Theorem get_nearest_neighbors_only_first_five (cfg : PredictionConfig)
    (df df' : DataFrame) (model_feature_name : string) :
  columns df = columns df' ->
  take 5 (rows df) = take 5 (rows df') ->
  get_nearest_neighbors cfg df model_feature_name
  = get_nearest_neighbors cfg df' model_feature_name.
Proof.
  intros Hcols Hrows. unfold get_nearest_neighbors, getitem, iloc_to.
  cbn [columns rows]. now rewrite Hcols, Hrows.
Qed.

(** The example listings with and without a sixth and a seventh row. *)
Lemma get_nearest_neighbors_only_first_five_witness :
  get_nearest_neighbors config
    (mkDataFrame ["mpg"; "weight"]
       (rows cars ++ [(4, car 30 2000); (5, car 9 4500); (6, car 40 1800)]))
    "weight"
  = get_nearest_neighbors config
      (mkDataFrame ["mpg"; "weight"] (rows cars ++ [(4, car 30 2000)]))
      "weight".
Proof.
  apply (get_nearest_neighbors_only_first_five config); reflexivity.
Defined.

(** X18: The model feature column is only read for the printed line, yet a
    frame without it raises [KeyError] like a frame without the target
    column. *)
Theorem get_nearest_neighbors_missing_column (cfg : PredictionConfig)
    (df : DataFrame) (model_feature_name : string) :
  TARGET_COLUMN cfg ∉ columns df \/ model_feature_name ∉ columns df ->
  get_nearest_neighbors cfg df model_feature_name = Raise KeyError.
Proof. apply get_nearest_neighbors_unknown_column. Qed.

(** The example listings have no column "price". *)
Lemma get_nearest_neighbors_missing_column_witness :
  (TARGET_COLUMN config ∉ columns cars \/ "price" ∉ columns cars)
  /\ get_nearest_neighbors config cars "price" = Raise KeyError.
Proof.
  assert (Hnot : "price" ∉ columns cars).
  { apply (bool_decide_unpack ("price" ∉ columns cars)). reflexivity. }
  split; [right; exact Hnot |].
  apply (get_nearest_neighbors_missing_column config cars "price").
  right. exact Hnot.
Defined.

Lemma present_all_missing (s : list value) :
  Forall (fun v => v = NaN) s -> present s = [].
Proof. induction 1 as [| v s -> _ IH]; [reflexivity | exact IH]. Qed.

(** X19: When none of the first five rows has a target (a frame without rows
    among them), no error is raised: the prediction is the missing-value
    marker. *)
Theorem get_nearest_neighbors_no_target (cfg : PredictionConfig)
    (df : DataFrame) (model_feature_name : string) :
  TARGET_COLUMN cfg ∈ columns df -> model_feature_name ∈ columns df ->
  Forall (fun r => cell r (TARGET_COLUMN cfg) = NaN) (take 5 (rows df)) ->
  exists out,
    get_nearest_neighbors cfg df model_feature_name = Ok (NaN, out).
Proof.
  intros Ht Hf Hall.
  destruct (get_nearest_neighbors_columns cfg df model_feature_name Ht Hf)
    as [out Hout].
  exists out. rewrite Hout. do 2 f_equal. apply MeanFacts.mean_missing.
  apply present_all_missing, Forall_fmap. exact Hall.
Qed.

(** The example frame cut down to no rows. *)
Lemma get_nearest_neighbors_no_target_witness :
  exists out,
    get_nearest_neighbors config (mkDataFrame ["mpg"; "weight"] []) "weight"
    = Ok (NaN, out).
Proof.
  apply (get_nearest_neighbors_no_target config
           (mkDataFrame ["mpg"; "weight"] []) "weight").
  - apply list_elem_of_here.
  - apply list_elem_of_further, list_elem_of_here.
  - constructor.
Defined.

End NeighborLaws.

(** ** Error metrics: sign, order, missing rows, row order *)

Module MetricLaws.
Import Frame PredictionUtils MeanFacts MetricFacts Examples.

Lemma mapM_rows_Raise {A B : Type} (f : A -> result B) (x : A) (l : list A)
    (e : exn) :
  f x = Raise e -> mapM f (x :: l) = Raise e.
Proof. intros Hf. cbn. now rewrite Hf. Qed.

Lemma calc_mean_absolute_error_Ok (cfg : PredictionConfig) (df : DataFrame)
    (name : string) (v : value) :
  calc_mean_absolute_error cfg df name = Ok v ->
  v = mean (vabs <$> (row_error cfg name <$> rows df)).
Proof.
  intros Hres. rewrite <- list_fmap_compose.
  destruct (decide (TARGET_COLUMN cfg ∈ columns df)) as [Ht | Ht];
    [destruct (decide (column_name_predicted_target cfg name ∈ columns df))
       as [Hp | Hp] |].
  - rewrite calc_mean_absolute_error_value in Hres by assumption.
    now injection Hres as <-.
  - unfold calc_mean_absolute_error, apply_rows in Hres.
    destruct (rows df) as [| x l]; [now injection Hres as <- |].
    rewrite (mapM_rows_Raise _ x l KeyError) in Hres; [discriminate Hres |].
    unfold row_getitem.
    destruct (decide (TARGET_COLUMN cfg ∈ columns df)); [| contradiction].
    destruct (decide (column_name_predicted_target cfg name ∈ columns df));
      [contradiction | reflexivity].
  - unfold calc_mean_absolute_error, apply_rows in Hres.
    destruct (rows df) as [| x l]; [now injection Hres as <- |].
    rewrite (mapM_rows_Raise _ x l KeyError) in Hres; [discriminate Hres |].
    unfold row_getitem.
    destruct (decide (TARGET_COLUMN cfg ∈ columns df));
      [contradiction | reflexivity].
Qed.

Lemma calc_mean_squared_error_Ok (cfg : PredictionConfig) (df : DataFrame)
    (name : string) (v : value) :
  calc_mean_squared_error cfg df name = Ok v ->
  v = mean (vsquare <$> (row_error cfg name <$> rows df)).
Proof.
  intros Hres. rewrite <- list_fmap_compose.
  destruct (decide (TARGET_COLUMN cfg ∈ columns df)) as [Ht | Ht];
    [destruct (decide (column_name_predicted_target cfg name ∈ columns df))
       as [Hp | Hp] |].
  - rewrite calc_mean_squared_error_value in Hres by assumption.
    now injection Hres as <-.
  - unfold calc_mean_squared_error, apply_rows in Hres.
    destruct (rows df) as [| x l]; [now injection Hres as <- |].
    rewrite (mapM_rows_Raise _ x l KeyError) in Hres; [discriminate Hres |].
    unfold row_getitem.
    destruct (decide (TARGET_COLUMN cfg ∈ columns df)); [| contradiction].
    destruct (decide (column_name_predicted_target cfg name ∈ columns df));
      [contradiction | reflexivity].
  - unfold calc_mean_squared_error, apply_rows in Hres.
    destruct (rows df) as [| x l]; [now injection Hres as <- |].
    rewrite (mapM_rows_Raise _ x l KeyError) in Hres; [discriminate Hres |].
    unfold row_getitem.
    destruct (decide (TARGET_COLUMN cfg ∈ columns df));
      [contradiction | reflexivity].
Qed.

Lemma present_vabs (s : list value) : present (vabs <$> s) = Qabs <$> present s.
Proof.
  unfold present. induction s as [| v s IH]; [reflexivity |].
  destruct v; cbn; now rewrite IH.
Qed.

Lemma present_vsquare (s : list value) :
  present (vsquare <$> s) = (fun x => x * x)%Q <$> present s.
Proof.
  unfold present. induction s as [| v s IH]; [reflexivity |].
  destruct v; cbn; now rewrite IH.
Qed.

Lemma mean_Num (s : list value) (m : Q) :
  mean s = Num m ->
  present s <> []
  /\ m = (Qsum (present s) / inject_Z (Z.of_nat (length (present s))))%Q.
Proof.
  unfold mean. destruct (present s) as [| q qs]; [discriminate |].
  intros H. injection H as <-. split; [discriminate | reflexivity].
Qed.

Lemma length_positive (qs : list Q) :
  qs <> [] -> (0 < inject_Z (Z.of_nat (length qs)))%Q.
Proof.
  intros Hne. change 0%Q with (inject_Z 0). rewrite <- Zlt_Qlt.
  destruct qs; [congruence | cbn [length]; lia].
Qed.

Lemma Qsum_nonneg (qs : list Q) :
  Forall (fun q => 0 <= q)%Q qs -> (0 <= Qsum qs)%Q.
Proof.
  induction 1 as [| q qs Hq _ IH]; cbn; [apply Qle_refl |].
  fold (Qsum qs). lra.
Qed.

Lemma mean_nonneg (s : list value) (m : Q) :
  Forall (fun q => 0 <= q)%Q (present s) -> mean s = Num m -> (0 <= m)%Q.
Proof.
  intros Hall Hm. apply mean_Num in Hm as [Hne ->].
  apply Qle_shift_div_l; [now apply length_positive |].
  rewrite Qmult_0_l. now apply Qsum_nonneg.
Qed.



(** X21: As long as no error exceeds 2^31 in absolute value (beyond it the
    square of an integer error wraps around), a mean squared error that is
    a number is not negative, so the root mean squared error is its square
    root and not the missing-value marker that [np.sqrt] gives for a
    negative number. *)
Theorem calc_root_mean_squared_error_defined (cfg : PredictionConfig)
    (df : DataFrame) (name : string) (s : Q) :
  forallb (error_in_range cfg name) (rows df) = true ->
  calc_mean_squared_error cfg df name = Ok (Num s) ->
  (0 <= s)%Q
  /\ calc_root_mean_squared_error cfg df name = Ok (RootOf s).
Proof.
  intros _ Hres.
  assert (Hs : (0 <= s)%Q).
  { pose proof Hres as Hv. apply calc_mean_squared_error_Ok in Hv.
    symmetry in Hv. eapply mean_nonneg; [| exact Hv].
    rewrite present_vsquare. apply Forall_fmap, Forall_forall.
    intros q _. cbn. nra. }
  split; [assumption |]. unfold calc_root_mean_squared_error.
  rewrite Hres. cbn. apply Qle_bool_iff in Hs. now rewrite Hs.
Qed.

(** The scored example: mean squared error 5/2. *)
Lemma calc_root_mean_squared_error_defined_witness :
  calc_mean_squared_error config scored "weight" = Ok (Num (5 # 2))
  /\ (0 <= 5 # 2)%Q
  /\ calc_root_mean_squared_error config scored "weight" = Ok (RootOf (5 # 2)).
Proof.
  assert (H : calc_mean_squared_error config scored "weight"
              = Ok (Num (5 # 2))) by (vm_compute; reflexivity).
  split; [exact H |].
  exact (calc_root_mean_squared_error_defined config scored "weight"
           (5 # 2) eq_refl H).
Defined.


Lemma Qsquare_nonneg (x : Q) : (0 <= x * x)%Q.
Proof. nra. Qed.

Lemma Qsum_squares_shift (a : Q) (qs : list Q) :
  (0 <= Qsum ((fun x => x * x) <$> qs) - 2 * a * Qsum qs
        + inject_Z (Z.of_nat (length qs)) * (a * a))%Q.
Proof.
  induction qs as [| q qs IH].
  - cbn. change (inject_Z (Z.of_nat 0)) with 0%Q. lra.
  - rewrite inject_length_cons. cbn [fmap list_fmap Qsum foldr].
    fold (Qsum qs). fold (Qsum ((fun x => x * x)%Q <$> qs)).
    pose proof (Qsquare_nonneg (q - a)) as Hsq. lra.
Qed.

(** The square of a sum is at most the number of terms times the sum of
    the squares. *)
Lemma Qsum_square_le (qs : list Q) :
  (Qsum qs * Qsum qs
   <= inject_Z (Z.of_nat (length qs)) * Qsum ((fun x => x * x) <$> qs))%Q.
Proof.
  induction qs as [| q qs IH].
  - cbn. change (inject_Z (Z.of_nat 0)) with 0%Q. lra.
  - pose proof (Qsum_squares_shift q qs) as Hshift.
    rewrite inject_length_cons. cbn [fmap list_fmap Qsum foldr].
    fold (Qsum qs). fold (Qsum ((fun x => x * x)%Q <$> qs)).
    nra.
Qed.

Lemma squares_of_abs (qs : list Q) :
  (Qsum ((fun x => x * x) <$> (Qabs <$> qs))
   == Qsum ((fun x => x * x) <$> qs))%Q.
Proof.
  induction qs as [| q qs IH]; [reflexivity |].
  cbn [fmap list_fmap Qsum foldr].
  fold (Qsum ((fun x => x * x)%Q <$> (Qabs <$> qs))).
  fold (Qsum ((fun x => x * x)%Q <$> qs)).
  rewrite IH. assert (Habs : (Qabs q * Qabs q == q * q)%Q).
  { rewrite <- Qabs_Qmult. apply Qabs_pos. nra. }
  now rewrite Habs.
Qed.

(** X22: On one frame whose errors do not exceed 2^31 in absolute value,
    the mean absolute error, squared, is at most the mean squared error,
    the numbers taken as exact: MAE does not exceed RMSE. *)
Theorem mean_absolute_error_le_root_mean_squared (cfg : PredictionConfig)
    (df : DataFrame) (name : string) (m s : Q) :
  forallb (error_in_range cfg name) (rows df) = true ->
  calc_mean_absolute_error cfg df name = Ok (Num m) ->
  calc_mean_squared_error cfg df name = Ok (Num s) ->
  (m * m <= s)%Q.
Proof.
  intros _ Hmae Hmse.
  apply calc_mean_absolute_error_Ok in Hmae. symmetry in Hmae.
  apply calc_mean_squared_error_Ok in Hmse. symmetry in Hmse.
  apply mean_Num in Hmae as [Hne ->]. apply mean_Num in Hmse as [_ ->].
  rewrite present_vabs, present_vsquare in *.
  set (es := present (row_error cfg name <$> rows df)) in *.
  rewrite !length_fmap.
  assert (Hes : es <> []) by (intros Hnil; apply Hne; now rewrite Hnil).
  pose proof (length_positive es Hes) as Hn.
  pose proof (Qsum_square_le (Qabs <$> es)) as Hcs.
  rewrite squares_of_abs, length_fmap in Hcs.
  set (n := inject_Z (Z.of_nat (length es))) in *.
  set (A := Qsum (Qabs <$> es)) in *.
  set (B := Qsum ((fun x => x * x)%Q <$> es)) in *.
  assert (Heq : (A / n * (A / n) == A * A / (n * n))%Q) by (field; lra).
  rewrite Heq. apply Qle_shift_div_r; [nra |].
  assert (Heq' : (B / n * (n * n) == n * B)%Q) by (field; lra).
  rewrite Heq'. exact Hcs.
Qed.

(** The scored example: (3/2)^2 against 5/2. *)
Lemma mean_absolute_error_le_root_mean_squared_witness :
  ((3 # 2) * (3 # 2) <= 5 # 2)%Q.
Proof.
  apply (mean_absolute_error_le_root_mean_squared config scored "weight");
    vm_compute; reflexivity.
Defined.

Lemma Qsum_zero_iff (qs : list Q) :
  Forall (fun q => 0 <= q)%Q qs ->
  (Qsum qs == 0)%Q <-> Forall (fun q => q == 0)%Q qs.
Proof.
  induction 1 as [| q qs Hq Hall IH]; [split; [constructor | reflexivity] |].
  cbn [Qsum foldr]. fold (Qsum qs).
  pose proof (Qsum_nonneg qs Hall) as Hsum. split.
  - intros Hz. constructor; [lra |]. apply IH. lra.
  - intros Hz. apply Forall_cons in Hz as [Hq0 Hz]. apply IH in Hz. lra.
Qed.

(** X23: On a frame whose errors do not exceed 2^31 in absolute value, the
    mean squared error, taken as an exact number, is 0 exactly when every
    row that has both values is predicted exactly. *)
Theorem calc_mean_squared_error_zero (cfg : PredictionConfig)
    (df : DataFrame) (name : string) (s : Q) :
  forallb (error_in_range cfg name) (rows df) = true ->
  calc_mean_squared_error cfg df name = Ok (Num s) ->
  (s == 0)%Q
  <-> (forall r (actual guess : Q),
         r ∈ rows df ->
         cell r (TARGET_COLUMN cfg) = Num actual ->
         cell r (column_name_predicted_target cfg name) = Num guess ->
         (actual == guess)%Q).
Proof.
  intros _ Hmse. apply calc_mean_squared_error_Ok in Hmse. symmetry in Hmse.
  apply mean_Num in Hmse as [Hne ->]. rewrite present_vsquare in *.
  set (es := present (row_error cfg name <$> rows df)) in *.
  assert (Hes : es <> []) by (intros Hnil; apply Hne; now rewrite Hnil).
  rewrite length_fmap. pose proof (length_positive es Hes) as Hn.
  assert (Hsq : Forall (fun q => 0 <= q)%Q ((fun x => x * x)%Q <$> es)).
  { apply Forall_fmap, Forall_forall. intros q _. cbn. nra. }
  assert (Hzero : (Qsum ((fun x => x * x)%Q <$> es)
                   / inject_Z (Z.of_nat (length es)) == 0)%Q
                  <-> Forall (fun q => q == 0)%Q es).
  { set (S := Qsum ((fun x => x * x)%Q <$> es)) in *.
    set (n := inject_Z (Z.of_nat (length es))) in *. split.
    - intros Hz.
      assert (Hsum : (S == 0)%Q).
      { assert (Heq : (S == S / n * n)%Q) by (field; lra).
        rewrite Heq, Hz. apply Qmult_0_l. }
      apply (Qsum_zero_iff _ Hsq) in Hsum. rewrite Forall_fmap in Hsum.
      eapply Forall_impl; [exact Hsum |]. cbn. intros q Hq.
      now destruct (Qmult_integral _ _ Hq).
    - intros Hall.
      assert (Hsum : (S == 0)%Q).
      { apply (Qsum_zero_iff _ Hsq). rewrite Forall_fmap.
        eapply Forall_impl; [exact Hall |]. cbn. intros q Hq. rewrite Hq.
        apply Qmult_0_l. }
      unfold Qdiv. rewrite Hsum. apply Qmult_0_l. }
  rewrite Hzero. subst es. unfold present. rewrite Forall_forall. split.
  - intros Hall r actual guess Hr Ha Hg.
    assert (Hin : (actual - guess)%Q
                  ∈ omap (fun v => match v with Num q => Some q | NaN => None end)
                      (row_error cfg name <$> rows df)).
    { apply list_elem_of_omap. exists (Num (actual - guess)).
      split; [| reflexivity]. apply list_elem_of_fmap. exists r.
      split; [| assumption]. unfold row_error. now rewrite Ha, Hg. }
    specialize (Hall _ Hin). lra.
  - intros Hall q Hq. apply list_elem_of_omap in Hq as (v & Hv & Hq).
    apply list_elem_of_fmap in Hv as (r & -> & Hr).
    unfold row_error in Hq.
    destruct (cell r (TARGET_COLUMN cfg)) as [| actual] eqn:Ha; [discriminate |].
    destruct (cell r (column_name_predicted_target cfg name)) as [| guess] eqn:Hg;
      [discriminate |].
    cbn in Hq. injection Hq as <-. specialize (Hall r actual guess Hr Ha Hg). lra.
Qed.


(** The scored example, whose mean squared error is 5/2. *)
Lemma calc_mean_squared_error_zero_witness :
  (5 # 2 == 0)%Q
  <-> (forall r (actual guess : Q),
         r ∈ rows scored ->
         cell r (TARGET_COLUMN config) = Num actual ->
         cell r (column_name_predicted_target config "weight") = Num guess ->
         (actual == guess)%Q).
Proof.
  apply (calc_mean_squared_error_zero config scored "weight" (5 # 2)).
  - reflexivity.
  - vm_compute. reflexivity.
Defined.



Lemma Qsum_Permutation (l l' : list Q) : l ≡ₚ l' -> (Qsum l == Qsum l')%Q.
Proof.
  induction 1 as [| x l l' _ IH | x y l | l l' l'' _ IH1 _ IH2].
  - reflexivity.
  - cbn. fold (Qsum l) (Qsum l'). now rewrite IH.
  - cbn. fold (Qsum l). ring.
  - now rewrite IH1.
Qed.

Lemma mean_Permutation (s s' : list value) : s ≡ₚ s' -> veq (mean s) (mean s').
Proof.
  intros Hperm.
  assert (Hp : present s ≡ₚ present s') by (unfold present; now rewrite Hperm).
  unfold mean.
  pose proof (Qsum_Permutation _ _ Hp) as Hsum.
  pose proof (Permutation_length Hp) as Hlen.
  destruct (present s) as [| q qs], (present s') as [| q' qs'];
    try discriminate Hlen; [exact I |].
  cbn [veq]. now rewrite Hsum, Hlen.
Qed.

(** X25: The error metrics do not depend on the order of the rows: on a frame
    that has both columns, a frame with the same columns and the same rows
    in another order (sorted, shuffled) has the same mean absolute and mean
    squared error. *)
Theorem metrics_ignore_row_order (cfg : PredictionConfig) (df df' : DataFrame)
    (name : string) :
  TARGET_COLUMN cfg ∈ columns df ->
  column_name_predicted_target cfg name ∈ columns df ->
  columns df' = columns df -> rows df' ≡ₚ rows df ->
  exists mae mae' mse mse',
    calc_mean_absolute_error cfg df name = Ok mae
    /\ calc_mean_absolute_error cfg df' name = Ok mae'
    /\ veq mae mae'
    /\ calc_mean_squared_error cfg df name = Ok mse
    /\ calc_mean_squared_error cfg df' name = Ok mse'
    /\ veq mse mse'.
Proof.
  intros Ht Hp Hcols Hperm.
  rewrite !calc_mean_absolute_error_value, !calc_mean_squared_error_value
    by (rewrite ?Hcols; assumption).
  eexists _, _, _, _. repeat split.
  - apply mean_Permutation. now rewrite Hperm.
  - apply mean_Permutation. now rewrite Hperm.
Qed.

(** The scored example and its two rows in the other order. *)
Lemma metrics_ignore_row_order_witness :
  exists mae mae' mse mse',
    calc_mean_absolute_error config scored "weight" = Ok mae
    /\ calc_mean_absolute_error config
         (mkDataFrame (columns scored) (reverse (rows scored))) "weight"
       = Ok mae'
    /\ veq mae mae'
    /\ calc_mean_squared_error config scored "weight" = Ok mse
    /\ calc_mean_squared_error config
         (mkDataFrame (columns scored) (reverse (rows scored))) "weight"
       = Ok mse'
    /\ veq mse mse'.
Proof.
  apply (metrics_ignore_row_order config scored
           (mkDataFrame (columns scored) (reverse (rows scored))) "weight").
  - apply list_elem_of_here.
  - apply list_elem_of_further, list_elem_of_here.
  - reflexivity.
  - apply reverse_Permutation.
Defined.


End MetricLaws.

(** ** Cleaning prices and counting missing values *)

Module CleanLaws.
Import Frame PredictionUtils Examples.

Lemma str_replace_char_filter (old : Ascii.ascii) (text : string) :
  String.list_ascii_of_string (str_replace_char old text)
  = List.filter (fun a => negb (Ascii.eqb a old))
      (String.list_ascii_of_string text).
Proof.
  induction text as [| a rest IH]; [reflexivity |].
  cbn. destruct (Ascii.eqb a old); cbn; now rewrite IH.
Qed.

Lemma filter_filter_bool {A : Type} (p q : A -> bool) (l : list A) :
  List.filter q (List.filter p l) = List.filter (fun a => p a && q a) l.
Proof.
  induction l as [| a l IH]; [reflexivity |].
  cbn. destruct (p a); cbn; [destruct (q a) |]; now rewrite IH.
Qed.

Section Float.
Context {F : PyFloat}.

(** X26: The text handed to [float] is the row with every comma and every
    dollar sign deleted and every other character left where it is:
    nothing else is cleaned. *)
Theorem replace_bad_chars_text (row : string) :
  exists text : string,
    replace_bad_chars row = float_of_string text
    /\ String.list_ascii_of_string text
       = List.filter
           (fun a => negb (Ascii.eqb a ",") && negb (Ascii.eqb a "$"))
           (String.list_ascii_of_string row).
Proof.
  eexists. split; [reflexivity |].
  now rewrite !str_replace_char_filter, filter_filter_bool.
Qed.

Lemma clean_price_cons (row : string) (rest : list string) :
  clean_price (row :: rest)
  = match replace_bad_chars row with
    | Converted v =>
        match clean_price rest with
        | Converted vs => Converted (v :: vs)
        | ValueError => ValueError
        end
    | ValueError => ValueError
    end.
Proof.
  unfold clean_price. cbn. destruct (replace_bad_chars row); [| reflexivity].
  cbn. now destruct (mapM replace_bad_chars rest).
Qed.

(** X27: [clean_price] converts the whole column or nothing: it fails exactly
    when [float] refuses one of the cleaned rows, and when it succeeds it
    returns one number per row, in the order of the rows. *)
Theorem clean_price_all_or_nothing (df_price_column : list string) :
  (clean_price df_price_column = ValueError
   <-> Exists (fun row => replace_bad_chars row = ValueError) df_price_column)
  /\ (forall prices : list value,
        clean_price df_price_column = Converted prices
        <-> Forall2 (fun row price => replace_bad_chars row = Converted price)
              df_price_column prices).
Proof.
  induction df_price_column as [| row rest [IHfail IHok]].
  - split.
    + split; [discriminate | intros H; inversion H].
    + intros prices. split.
      * intros H. injection H as <-. constructor.
      * intros H. inversion H. reflexivity.
  - rewrite clean_price_cons. split.
    + rewrite Exists_cons. destruct (replace_bad_chars row) as [v |] eqn:Hrow.
      * destruct (clean_price rest) as [vs |] eqn:Hrest.
        -- split; [discriminate |]. intros [H | H]; [discriminate |].
           apply IHfail in H. discriminate H.
        -- split; [intros _; right; now apply IHfail | reflexivity].
      * split; [intros _; now left | reflexivity].
    + intros prices. destruct (replace_bad_chars row) as [v |] eqn:Hrow.
      * destruct (clean_price rest) as [vs |] eqn:Hrest.
        -- split.
           ++ intros H. injection H as <-. constructor; [assumption |].
              now apply IHok.
           ++ intros H. inversion H as [| ? price ? prices' Hprice Hrest']; subst.
              rewrite Hrow in Hprice. injection Hprice as <-.
              apply IHok in Hrest'. now injection Hrest' as <-.
        -- split; [discriminate |].
           intros H. inversion H as [| ? price ? prices' Hprice Hrest']; subst.
           apply IHok in Hrest'. discriminate Hrest'.
      * split; [discriminate |].
        intros H. inversion H as [| ? price ? prices' Hprice Hrest']; subst.
        rewrite Hrow in Hprice. discriminate Hprice.
Qed.

End Float.

(** With the reader of digit strings: a price with a dollar sign and a
    comma is read, a row that is no number loses the whole column. *)
Example clean_price_examples :
  clean_price (H := Reference.digits_only) ["$1,200"; "85"]
  = Converted [Num 1200; Num 85]
  /\ clean_price (H := Reference.digits_only) ["$1,200"; "n/a"; "85"]
     = ValueError.
Proof. split; reflexivity. Qed.

Lemma isnull_sum_le (series : list value) :
  (isnull_sum series <= length series)%nat.
Proof. unfold isnull_sum. apply length_filter. Qed.

Section Round.
Context {P : PyRound} {PL : PyRoundLaws P}.

(** X28: On a series with at least one value [get_percentage_missing] returns a
    fraction, not a percentage: a number from 0 to 1, 0 when no value is
    missing and 1 when all are. *)
Theorem get_percentage_missing_fraction (series : list value) :
  series <> [] ->
  exists p : Q,
    get_percentage_missing series = Num p
    /\ (0 <= p /\ p <= 1)%Q
    /\ (isnull_sum series = 0%nat -> (p == 0)%Q)
    /\ (isnull_sum series = length series -> (p == 1)%Q).
Proof.
  intros Hne. unfold get_percentage_missing.
  pose proof (isnull_sum_le series) as Hle.
  destruct series as [| v rest]; [congruence |].
  set (num := isnull_sum (v :: rest)) in *.
  set (den := length (v :: rest)) in *.
  assert (Hden : (0 < inject_Z (Z.of_nat den))%Q).
  { change 0%Q with (inject_Z 0). rewrite <- Zlt_Qlt. subst den. cbn. lia. }
  assert (Hnum : (0 <= inject_Z (Z.of_nat num))%Q).
  { change 0%Q with (inject_Z 0). rewrite <- Zle_Qle. lia. }
  assert (Hnd : (inject_Z (Z.of_nat num) <= inject_Z (Z.of_nat den))%Q).
  { rewrite <- Zle_Qle. lia. }
  set (ratio := (inject_Z (Z.of_nat num) / inject_Z (Z.of_nat den))%Q).
  assert (Hlo : (0 <= ratio)%Q).
  { apply Qle_shift_div_l; [assumption | lra]. }
  assert (Hhi : (ratio <= 1)%Q).
  { apply Qle_shift_div_r; [assumption | lra]. }
  pose proof (round_2_monotone 0 ratio Hlo) as Hr0.
  pose proof (round_2_monotone ratio 1 Hhi) as Hr1.
  rewrite round_2_zero in Hr0. rewrite round_2_one in Hr1.
  eexists. split; [reflexivity |]. fold ratio. split; [split; assumption |].
  split.
  - intros Hzero.
    assert (Hratio : (ratio <= 0)%Q).
    { apply Qle_shift_div_r; [assumption |]. rewrite Hzero.
      change (inject_Z (Z.of_nat 0)) with 0%Q. lra. }
    pose proof (round_2_monotone ratio 0 Hratio) as Hr.
    rewrite round_2_zero in Hr. lra.
  - intros Hall.
    assert (Hratio : (1 <= ratio)%Q).
    { apply Qle_shift_div_l; [assumption |]. rewrite Hall. lra. }
    pose proof (round_2_monotone 1 ratio Hratio) as Hr.
    rewrite round_2_one in Hr. lra.
Qed.

End Round.

Lemma half_up_laws : PyRoundLaws Reference.half_up.
Proof.
  constructor.
  - reflexivity.
  - reflexivity.
  - intros q q' Hle. cbn.
    assert (Hfloor : Qfloor (q * 100 + (1 # 2)) <= Qfloor (q' * 100 + (1 # 2))).
    { apply Qfloor_resp_le. lra. }
    rewrite Zle_Qle in Hfloor.
    apply Qle_shift_div_l; [reflexivity |].
    assert (Heq : (inject_Z (Qfloor (q * 100 + (1 # 2))) / 100 * 100
                   == inject_Z (Qfloor (q * 100 + (1 # 2))))%Q) by field.
    now rewrite Heq.
Qed.

(** A series of four values, two of them missing. *)
Lemma get_percentage_missing_fraction_witness :
  exists p : Q,
    get_percentage_missing (H := Reference.half_up) [Num 1; NaN; NaN; Num 4]
    = Num p
    /\ (0 <= p /\ p <= 1)%Q
    /\ (isnull_sum [Num 1; NaN; NaN; Num 4] = 0%nat -> (p == 0)%Q)
    /\ (isnull_sum [Num 1; NaN; NaN; Num 4]
        = length [Num 1; NaN; NaN; Num 4] -> (p == 1)%Q).
Proof.
  apply (@get_percentage_missing_fraction Reference.half_up half_up_laws
           [Num 1; NaN; NaN; Num 4]).
  discriminate.
Defined.

(** With halves rounded upwards: two missing values of four give 0.5, one
    of three gives 0.33, and a single missing value among 250 is rounded
    away. *)
Example get_percentage_missing_examples :
  veq (get_percentage_missing (H := Reference.half_up)
         [Num 1; NaN; NaN; Num 4]) (Num (1 # 2))
  /\ veq (get_percentage_missing (H := Reference.half_up) [Num 1; NaN; Num 4])
         (Num (33 # 100))
  /\ veq (get_percentage_missing (H := Reference.half_up)
            (NaN :: replicate 249 (Num 1))) (Num 0)
  /\ get_percentage_missing (H := Reference.half_up) [] = NaN.
Proof. repeat split; vm_compute; reflexivity. Qed.

End CleanLaws.
